(** * The paper ledger of the multi-pair trading bot

    Shallow embedding of [Position] and [Ledger] from
    [multipair_paper_bot_with_report/bot.py] (the copy in
    [multipair_paper_bot_with_ui/bot.py] is textually the same class).

    Numbers.  The Python fields are floats.  The specification reads them
    as real numbers, and the first embedding follows it: a number is an
    exact rational in canonical form ([Qc], Leibniz equality), without
    rounding, overflow or NaN.  The statements that rounding, an overflow
    or a NaN can break are settled on a second embedding of the same
    methods, [B64], over the binary64 floats the program computes with.

    Store.  [Ledger.positions] is a dict from symbol to a mutable
    [Position] object.  Every [Position] is created by [ensure] and is
    referenced from exactly one key, so the object bound by
    [p = self.positions[sym]] is addressed here by its key, and a field
    assignment [p.qty = v] is an in-place update of the entry under that
    key.

    Errors.  A subscript on a missing key raises [KeyError] and a float
    division by zero raises [ZeroDivisionError]; both are kept in the
    model, so that "returns" is a statement that has to be proved. *)

From Stdlib Require Import QArith Qcanon.
From Stdlib Require Floats.
From stdpp Require Import base numbers strings gmap fin_maps list.

Local Open Scope Qc_scope.

(** ** Data model *)

Record Position : Type := mkPosition { qty : Qc; avg_entry : Qc }.

Record Ledger : Type := mkLedger {
  realized_pnl : Qc;
  positions : gmap string Position
}.

(** [Position()] and [Ledger()]: the dataclass defaults. *)
Definition Position_new : Position := mkPosition 0 0.
Definition Ledger_new : Ledger := mkLedger 0 ∅.

Global Instance Position_eq_dec : EqDecision Position.
Proof. solve_decision. Defined.

Global Instance Ledger_eq_dec : EqDecision Ledger.
Proof. solve_decision. Defined.

(** ** Method bodies as state transformers that may raise *)

Inductive exn : Type := KeyError | ZeroDivisionError.

Inductive outcome (A : Type) : Type :=
| Returns (a : A) (l : Ledger)
| Raises (e : exn).
Arguments Returns {A} a l.
Arguments Raises {A} e.

Global Instance exn_eq_dec : EqDecision exn.
Proof. solve_decision. Defined.

Global Instance outcome_eq_dec `{EqDecision A} : EqDecision (outcome A).
Proof. solve_decision. Defined.

Definition M (A : Type) : Type := Ledger → outcome A.

Global Instance M_ret : MRet M := λ A a l, Returns a l.

Global Instance M_bind : MBind M := λ A B f m l,
  match m l with
  | Returns a l' => f a l'
  | Raises e => Raises e
  end.

(** [sym in self.positions] *)
Definition contains (sym : string) : M bool := λ l,
  Returns (bool_decide (is_Some (positions l !! sym))) l.

(** [self.positions[sym] = v] *)
Definition setitem (sym : string) (v : Position) : M unit := λ l,
  Returns () (mkLedger (realized_pnl l) (<[sym := v]> (positions l))).

(** [self.positions[sym]]: the object stored under [sym], addressed by its
    key; [KeyError] when there is none. *)
Definition getitem (sym : string) : M string := λ l,
  match positions l !! sym with
  | Some _ => Returns sym l
  | None => Raises KeyError
  end.

(** Field reads and writes through a reference [p]. *)
Definition read_qty (p : string) : M Qc := λ l,
  match positions l !! p with
  | Some v => Returns (qty v) l
  | None => Raises KeyError
  end.

Definition read_avg_entry (p : string) : M Qc := λ l,
  match positions l !! p with
  | Some v => Returns (avg_entry v) l
  | None => Raises KeyError
  end.

Definition write_qty (p : string) (x : Qc) : M unit := λ l,
  Returns () (mkLedger (realized_pnl l)
                (alter (λ v, mkPosition x (avg_entry v)) p (positions l))).

Definition write_avg_entry (p : string) (x : Qc) : M unit := λ l,
  Returns () (mkLedger (realized_pnl l)
                (alter (λ v, mkPosition (qty v) x) p (positions l))).

(** [self.realized_pnl += x] *)
Definition add_realized_pnl (x : Qc) : M unit := λ l,
  Returns () (mkLedger (realized_pnl l + x) (positions l)).

(** Python's [/] on floats. *)
Definition truediv (x y : Qc) : M Qc := λ l,
  if decide (y = 0) then Raises ZeroDivisionError else Returns (x / y) l.

(** Python's two-argument [min]: the second argument only when it is
    strictly smaller. *)
Definition py_min (a b : Qc) : Qc := if decide (b < a) then b else a.

(** [Ledger.ensure] *)
Definition ensure (sym : string) : M unit :=
  (* if sym not in self.positions: self.positions[sym] = Position() *)
  present ← contains sym;
  if present : bool then mret () else setitem sym Position_new.

(** [Ledger.buy] *)
Definition buy (sym : string) (price usdt_notional : Qc) : M Qc :=
  (* self.ensure(sym) *)
  ensure sym;;
  (* p = self.positions[sym] *)
  p ← getitem sym;
  (* qty = (usdt_notional / price) if price > 0 else 0.0 *)
  qty ← (if decide (0 < price) then truediv usdt_notional price else mret 0);
  (* new_qty = p.qty + qty *)
  p_qty ← read_qty p;
  let new_qty := p_qty + qty in
  (if decide (new_qty ≤ 0) then
     (* p.qty, p.avg_entry = 0.0, 0.0 *)
     write_qty p 0;; write_avg_entry p 0
   else
     (* p.avg_entry = (p.avg_entry * p.qty + price * qty) / new_qty
                      if p.qty > 0 else price *)
     held ← read_qty p;
     a ← (if decide (0 < held) then
            pa ← read_avg_entry p;
            pq ← read_qty p;
            truediv (pa * pq + price * qty) new_qty
          else mret price);
     write_avg_entry p a;;
     (* p.qty = new_qty *)
     write_qty p new_qty);;
  (* return qty *)
  mret qty.

(** [Ledger.sell] *)
Definition sell (sym : string) (price usdt_notional : Qc) : M Qc :=
  (* self.ensure(sym) *)
  ensure sym;;
  (* p = self.positions[sym] *)
  p ← getitem sym;
  (* qty = min(p.qty, usdt_notional / price if price > 0 else 0.0) *)
  p_qty ← read_qty p;
  desired ← (if decide (0 < price) then truediv usdt_notional price else mret 0);
  let qty := py_min p_qty desired in
  (* if qty <= 0: return 0.0 *)
  if decide (qty ≤ 0) then mret 0
  else
    (* pnl = (price - p.avg_entry) * qty *)
    pa ← read_avg_entry p;
    let pnl := (price - pa) * qty in
    (* self.realized_pnl += pnl *)
    add_realized_pnl pnl;;
    (* p.qty -= qty *)
    held ← read_qty p;
    write_qty p (held - qty);;
    (* if p.qty <= 0: p.qty, p.avg_entry = 0.0, 0.0 *)
    rest ← read_qty p;
    (if decide (rest ≤ 0) then write_qty p 0;; write_avg_entry p 0
     else mret ());;
    (* return qty *)
    mret qty.

(** [Ledger.unrealized] *)
Definition unrealized (sym : string) (price : Qc) : M Qc :=
  (* self.ensure(sym) *)
  ensure sym;;
  (* p = self.positions[sym] *)
  p ← getitem sym;
  (* return (price - p.avg_entry) * p.qty if p.qty > 0 else 0.0 *)
  held ← read_qty p;
  if decide (0 < held) then
    pa ← read_avg_entry p;
    pq ← read_qty p;
    mret ((price - pa) * pq)
  else mret 0.

(** [self.positions.get(sym, Position())], as [write_state_and_report]
    reads a position: the stored object, or a zeroed one. *)
Definition position_of (l : Ledger) (sym : string) : Position :=
  default Position_new (positions l !! sym).

(** The ledger with the object under [sym] holding [v]; the lemmas below
    describe each method's effect with it. *)
Definition store (l : Ledger) (sym : string) (v : Position) : Ledger :=
  mkLedger (realized_pnl l) (<[sym := v]> (positions l)).

(** ** Sequences of calls

    The ledger is driven by a loop that calls its methods one after the
    other.  [run] performs a list of calls and records the ledger after
    each of them. *)

Inductive call : Type :=
| Ensure (sym : string)
| Buy (sym : string) (price usdt_notional : Qc)
| Sell (sym : string) (price usdt_notional : Qc)
| Unrealized (sym : string) (price : Qc).

Definition perform (c : call) : M unit :=
  match c with
  | Ensure sym => ensure sym
  | Buy sym price usdt_notional => buy sym price usdt_notional;; mret ()
  | Sell sym price usdt_notional => sell sym price usdt_notional;; mret ()
  | Unrealized sym price => unrealized sym price;; mret ()
  end.

Definition snapshot : M Ledger := λ l, Returns l l.

Fixpoint run (cs : list call) : M (list Ledger) :=
  match cs with
  | [] => mret []
  | c :: cs' =>
      perform c;;
      l ← snapshot;
      ls ← run cs';
      mret (l :: ls)
  end.

(** A property of every object stored in the mapping. *)
Definition all_positions (P : Position → Prop) (l : Ledger) : Prop :=
  map_Forall (λ _, P) (positions l).

Definition flat_is_zeroed (p : Position) : Prop := qty p = 0 → avg_entry p = 0.

(** ** Fills

    A fill is a pair (price, notional) handed to [buy]. *)





(** ** The polling loop

    [run] of both bots: each pass refreshes the prices, drains the queue of
    signals into the ledger, writes the state snapshot and prints a status
    line.  The price refresh, the clock and the files are the world outside;
    a pass is modelled from the prices it ends up with. *)

(** Python's two-argument [max]: the second argument only when it is
    strictly greater. *)
Definition py_max (a b : Qc) : Qc := if decide (a < b) then b else a.

(** A queued signal, as [submit_signal] builds it; the loop never reads
    its time stamp, which is left out. *)
Record Signal : Type := mkSignal {
  symbol : string;
  side : string;
  strength : Qc
}.

(** The arguments of one [log_trade] call, without the clock reading; the
    columns are those of the CSV header. *)
Record TradeRow : Type := mkTradeRow {
  row_symbol : string;
  row_side : string;
  row_qty : Qc;
  row_price : Qc;
  row_notional : Qc;
  row_realized_pnl_after : Qc
}.

(** [prices.get(s, 0.0)] *)
Definition prices_get (prices : gmap string Qc) (s : string) : Qc :=
  default 0 (prices !! s).

(** [max(5.0, BASE_QTY * max(0.1, min(2.0, strength)))] *)
Definition signal_notional (BASE_QTY strength : Qc) : Qc :=
  py_max (Qc_of_Z 5)
    (BASE_QTY * py_max (Qc_of_Z 1 / Qc_of_Z 10) (py_min (Qc_of_Z 2) strength)).

(** [ledger.realized_pnl] *)
Definition read_realized_pnl : M Qc := λ l, Returns (realized_pnl l) l.

(** The body of [while not signal_q.empty()] for one signal; the result is
    the rows it appends to the trade log. *)
Definition handle_signal
    (BASE_QTY : Qc) (prices : gmap string Qc) (sig : Signal) : M (list TradeRow) :=
  (* s, side, strength = sig[symbol], sig[side], sig[strength] *)
  let s := symbol sig in
  (* px = prices.get(s, 0.0) *)
  let px := prices_get prices s in
  (* if px <= 0: print(...); continue *)
  if decide (px ≤ 0) then mret []
  else
    let notional := signal_notional BASE_QTY (strength sig) in
    if decide (side sig = "buy") then
      (* qty = ledger.buy(s, px, notional) *)
      qty ← buy s px notional;
      (* log_trade(..., s, buy, qty, px, notional, ledger.realized_pnl) *)
      r ← read_realized_pnl;
      mret [mkTradeRow s "buy" qty px notional r]
    else if decide (side sig = "sell") then
      (* qty = ledger.sell(s, px, notional) *)
      qty ← sell s px notional;
      (* log_trade(..., s, sell, qty, px, notional, ledger.realized_pnl) *)
      r ← read_realized_pnl;
      mret [mkTradeRow s "sell" qty px notional r]
    else mret [].

(** Draining the queue, oldest signal first. *)
Fixpoint handle_signals
    (BASE_QTY : Qc) (prices : gmap string Qc) (queue : list Signal)
    : M (list TradeRow) :=
  match queue with
  | [] => mret []
  | sig :: queue' =>
      rows ← handle_signal BASE_QTY prices sig;
      rest ← handle_signals BASE_QTY prices queue';
      mret (rows ++ rest)
  end.

(** [ledger.positions.get(s, Position())] as a statement: it reads and
    stores nothing. *)
Definition positions_get (s : string) : M Position := λ l,
  Returns (position_of l s) l.

(** A dict comprehension [{s: f(s) for s in keys}]: keys in list order, a
    later duplicate overwriting an earlier one. *)
Fixpoint dict_comprehension {V : Type}
    (f : string → M V) (keys : list string) (acc : gmap string V)
    : M (gmap string V) :=
  match keys with
  | [] => mret acc
  | s :: keys' =>
      v ← f s;
      dict_comprehension f keys' (<[s := v]> acc)
  end.

(** The snapshot [build_state] returns ([write_state_and_report] builds the
    same dict without the pause flag). *)
Record State : Type := mkState {
  st_time : Z;
  st_symbols : list string;
  st_prices : gmap string Qc;
  st_positions : gmap string Position;
  st_realized_pnl : Qc;
  st_unrealized : gmap string Qc;
  st_paused : bool
}.

Global Instance TradeRow_eq_dec : EqDecision TradeRow.
Proof. solve_decision. Defined.

Global Instance State_eq_dec : EqDecision State.
Proof. solve_decision. Defined.

(** [build_state(prices, ledger)]; [now] is the clock reading and
    [SYMBOLS], [paused] the module globals. *)
Definition build_state
    (SYMBOLS : list string) (paused : bool) (now : Z) (prices : gmap string Qc)
    : M State :=
  (* positions: {s: {qty: ....get(s, Position()).qty,
                     avg_entry: ....get(s, Position()).avg_entry} ...} *)
  ps ← dict_comprehension
         (λ s, p1 ← positions_get s;
               p2 ← positions_get s;
               mret (mkPosition (qty p1) (avg_entry p2)))
         SYMBOLS ∅;
  (* realized_pnl: ledger.realized_pnl *)
  r ← read_realized_pnl;
  (* unrealized: {s: ledger.unrealized(s, prices.get(s,0.0)) ...} *)
  us ← dict_comprehension (λ s, unrealized s (prices_get prices s)) SYMBOLS ∅;
  mret (mkState now SYMBOLS prices ps r us paused).

(** [sum(ledger.unrealized(s, prices.get(s,0.0)) for s in SYMBOLS)]: the
    running total starts at 0 and adds from the left. *)
Fixpoint sum_unrealized
    (prices : gmap string Qc) (keys : list string) (acc : Qc) : M Qc :=
  match keys with
  | [] => mret acc
  | s :: keys' =>
      u ← unrealized s (prices_get prices s);
      sum_unrealized prices keys' (acc + u)
  end.

Definition upnl_total (SYMBOLS : list string) (prices : gmap string Qc) : M Qc :=
  sum_unrealized prices SYMBOLS 0.

(** One pass of the loop after the price refresh: the prices it has, the
    signals it finds queued, whether the snapshot is due, the clock and the
    pause flag at that time. *)
Record Tick : Type := mkTick {
  tick_prices : gmap string Qc;
  tick_queue : list Signal;
  tick_write : bool;
  tick_now : Z;
  tick_paused : bool
}.

(** Steps 2 to 4 of the loop body: the rows logged, the snapshot when one
    is written, and the total printed on the status line. *)
Definition loop_body
    (BASE_QTY : Qc) (SYMBOLS : list string) (t : Tick)
    : M (list TradeRow * option State * Qc) :=
  (* 2) handle signals *)
  rows ← handle_signals BASE_QTY (tick_prices t) (tick_queue t);
  (* 3) write the state when it is due *)
  st ← (if tick_write t
        then st ← build_state SYMBOLS (tick_paused t) (tick_now t) (tick_prices t);
             mret (Some st)
        else mret None);
  (* 4) the total of the status line *)
  upnl ← upnl_total SYMBOLS (tick_prices t);
  mret (rows, st, upnl).

(** ** Total-correctness triples

    [hoare P m Q]: from a ledger satisfying [P], [m] returns, with a result
    and a ledger satisfying [Q]. *)
Definition hoare {A : Type}
    (P : Ledger → Prop) (m : M A) (Q : A → Ledger → Prop) : Prop :=
  ∀ l, P l → ∃ a l', m l = Returns a l' ∧ Q a l'.

(** A signal the loop acts on. *)
Definition actionable (prices : gmap string Qc) (sig : Signal) : Prop :=
  0 < prices_get prices (symbol sig) ∧ (side sig = "buy" ∨ side sig = "sell").

Global Instance actionable_dec prices sig : Decision (actionable prices sig).
Proof. unfold actionable. apply _. Defined.

(** Two ledgers that read the same: equal realized PnL and equal positions
    under the zeroed default, whatever zeroed entries one of them stores. *)
Definition same_books (l0 l : Ledger) : Prop :=
  realized_pnl l = realized_pnl l0 ∧ ∀ s, position_of l s = position_of l0 s.

(** The value [unrealized] computes from a position. *)
Definition unrealized_of (p : Position) (price : Qc) : Qc :=
  if decide (0 < qty p) then (price - avg_entry p) * qty p else 0.

(** ** The ledger in binary64

    The same class with the numbers the program computes with: Python's
    [float] is IEEE 754 binary64, here the primitive type [float], whose
    operations round to nearest, overflow to an infinity and produce a NaN
    for [inf - inf], [0 * inf] and [inf / inf].  A comparison with a NaN
    is false.  Python raises [ZeroDivisionError] for a float division by a
    zero of either sign and no error for an overflow.  The method bodies
    are those above, statement for statement. *)

Module B64.
Import PrimFloat.

Record Position : Type := mkPosition { qty : float; avg_entry : float }.

Record Ledger : Type := mkLedger {
  realized_pnl : float;
  positions : gmap string Position
}.

Definition Position_new : Position := mkPosition 0 0.
Definition Ledger_new : Ledger := mkLedger 0 ∅.

Inductive outcome (A : Type) : Type :=
| Returns (a : A) (l : Ledger)
| Raises (e : exn).
Arguments Returns {A} a l.
Arguments Raises {A} e.

Definition M (A : Type) : Type := Ledger → outcome A.

Global Instance M_ret : MRet M := λ A a l, Returns a l.

Global Instance M_bind : MBind M := λ A B f m l,
  match m l with
  | Returns a l' => f a l'
  | Raises e => Raises e
  end.

(** [sym in self.positions] *)
Definition contains (sym : string) : M bool := λ l,
  Returns (bool_decide (is_Some (positions l !! sym))) l.

(** [self.positions[sym] = v] *)
Definition setitem (sym : string) (v : Position) : M unit := λ l,
  Returns () (mkLedger (realized_pnl l) (<[sym := v]> (positions l))).

(** [self.positions[sym]] *)
Definition getitem (sym : string) : M string := λ l,
  match positions l !! sym with
  | Some _ => Returns sym l
  | None => Raises KeyError
  end.

Definition read_qty (p : string) : M float := λ l,
  match positions l !! p with
  | Some v => Returns (qty v) l
  | None => Raises KeyError
  end.

Definition read_avg_entry (p : string) : M float := λ l,
  match positions l !! p with
  | Some v => Returns (avg_entry v) l
  | None => Raises KeyError
  end.

Definition write_qty (p : string) (x : float) : M unit := λ l,
  Returns () (mkLedger (realized_pnl l)
                (alter (λ v, mkPosition x (avg_entry v)) p (positions l))).

Definition write_avg_entry (p : string) (x : float) : M unit := λ l,
  Returns () (mkLedger (realized_pnl l)
                (alter (λ v, mkPosition (qty v) x) p (positions l))).

(** [self.realized_pnl += x] *)
Definition add_realized_pnl (x : float) : M unit := λ l,
  Returns () (mkLedger (realized_pnl l + x)%float (positions l)).

(** Python's [/] on floats: an error for a divisor equal to zero, the
    IEEE quotient otherwise. *)
Definition truediv (x y : float) : M float := λ l,
  if (y =? 0)%float then Raises ZeroDivisionError else Returns (x / y)%float l.

(** Python's two-argument [min]. *)
Definition py_min (a b : float) : float := if (b <? a)%float then b else a.

(** [Ledger.ensure] *)
Definition ensure (sym : string) : M unit :=
  present ← contains sym;
  if present : bool then mret () else setitem sym Position_new.

(** [Ledger.buy] *)
Definition buy (sym : string) (price usdt_notional : float) : M float :=
  (* self.ensure(sym) *)
  ensure sym;;
  (* p = self.positions[sym] *)
  p ← getitem sym;
  (* qty = (usdt_notional / price) if price > 0 else 0.0 *)
  qty ← (if (0 <? price)%float then truediv usdt_notional price else mret 0%float);
  (* new_qty = p.qty + qty *)
  p_qty ← read_qty p;
  let new_qty := (p_qty + qty)%float in
  (if (new_qty <=? 0)%float then
     (* p.qty, p.avg_entry = 0.0, 0.0 *)
     write_qty p 0;; write_avg_entry p 0
   else
     (* p.avg_entry = (p.avg_entry * p.qty + price * qty) / new_qty
                      if p.qty > 0 else price *)
     held ← read_qty p;
     a ← (if (0 <? held)%float then
            pa ← read_avg_entry p;
            pq ← read_qty p;
            truediv (pa * pq + price * qty)%float new_qty
          else mret price);
     write_avg_entry p a;;
     (* p.qty = new_qty *)
     write_qty p new_qty);;
  (* return qty *)
  mret qty.

(** [Ledger.sell] *)
Definition sell (sym : string) (price usdt_notional : float) : M float :=
  (* self.ensure(sym) *)
  ensure sym;;
  (* p = self.positions[sym] *)
  p ← getitem sym;
  (* qty = min(p.qty, usdt_notional / price if price > 0 else 0.0) *)
  p_qty ← read_qty p;
  desired ← (if (0 <? price)%float then truediv usdt_notional price
             else mret 0%float);
  let qty := py_min p_qty desired in
  (* if qty <= 0: return 0.0 *)
  if (qty <=? 0)%float then mret 0%float
  else
    (* pnl = (price - p.avg_entry) * qty *)
    pa ← read_avg_entry p;
    let pnl := ((price - pa) * qty)%float in
    (* self.realized_pnl += pnl *)
    add_realized_pnl pnl;;
    (* p.qty -= qty *)
    held ← read_qty p;
    write_qty p (held - qty)%float;;
    (* if p.qty <= 0: p.qty, p.avg_entry = 0.0, 0.0 *)
    rest ← read_qty p;
    (if (rest <=? 0)%float then write_qty p 0;; write_avg_entry p 0
     else mret ());;
    (* return qty *)
    mret qty.

(** [self.positions.get(sym, Position())] *)
Definition position_of (l : Ledger) (sym : string) : Position :=
  default Position_new (positions l !! sym).

Definition store (l : Ledger) (sym : string) (v : Position) : Ledger :=
  mkLedger (realized_pnl l) (<[sym := v]> (positions l)).

(** A sequence of buy and sell calls, and the ledger after each. *)
Inductive trade : Type :=
| Buy (sym : string) (price usdt_notional : float)
| Sell (sym : string) (price usdt_notional : float).

Definition perform (c : trade) : M unit :=
  match c with
  | Buy sym price usdt_notional => buy sym price usdt_notional;; mret ()
  | Sell sym price usdt_notional => sell sym price usdt_notional;; mret ()
  end.

Definition snapshot : M Ledger := λ l, Returns l l.

Fixpoint run (cs : list trade) : M (list Ledger) :=
  match cs with
  | [] => mret []
  | c :: cs' =>
      perform c;;
      l ← snapshot;
      ls ← run cs';
      mret (l :: ls)
  end.

(** A property of every stored position. *)
Definition all_positions (P : Position → Prop) (l : Ledger) : Prop :=
  map_Forall (λ _, P) (positions l).

(** A quantity as the methods leave it: the [0.0] of a reset, or a value
    that failed the test [<= 0], that is a value above 0 or a NaN. *)
Definition qty_stored (p : Position) : Prop :=
  qty p = 0%float ∨ (qty p <=? 0)%float = false.

(** Not below 0: at least 0, or a NaN. *)
Definition not_negative (x : float) : Prop := (x <? 0)%float = false.

(** A buy of a notional of at least 0, or any sell. *)
Definition buys_nonneg (c : trade) : Prop :=
  match c with
  | Buy _ _ usdt_notional => (0 <=? usdt_notional)%float = true
  | Sell _ _ _ => True
  end.

End B64.

(** ** Arithmetic on canonical rationals *)

Section arith.
Implicit Types x y z : Qc.

Lemma Qc_pos_ne_0 x : 0 < x → x ≠ 0.
Proof. intros H ->. by apply (irreflexivity (<) (0 : Qc)). Qed.

Lemma Qc_nle_pos x : ¬ x ≤ 0 → 0 < x.
Proof. apply Qcnot_le_lt. Qed.


Lemma Qcdiv_nonneg x y : 0 ≤ x → 0 < y → 0 ≤ x / y.
Proof.
  intros. apply Qcmult_nonneg_nonneg; [done |].
  by apply Qclt_le_weak, Qcinv_pos.
Qed.

Lemma Qc_sub_pos x y : y < x → 0 < x - y.
Proof. intros. by apply (proj1 (Qclt_minus_iff y x)). Qed.

Lemma py_min_le_l x y : py_min x y ≤ x.
Proof.
  unfold py_min. case_decide; [by apply Qclt_le_weak | apply Qcle_refl].
Qed.

Lemma py_min_le_r x y : py_min x y ≤ y.
Proof.
  unfold py_min. case_decide; [apply Qcle_refl | by apply Qcnot_lt_le].
Qed.
End arith.

(** ** What each method does, in one step

    The effect of a whole method body on a ledger, obtained by running the
    embedding.  In particular no method raises: [ensure] precedes every
    subscript and a guard precedes every division. *)

Lemma ensure_run sym l :
  ensure sym l = Returns () (store l sym (position_of l sym)).
Proof.
  unfold ensure, contains, setitem, store, position_of, mbind, M_bind, mret, M_ret.
  destruct l as [r ps]; cbn [positions realized_pnl].
  destruct (ps !! sym) as [v|] eqn:E.
  - rewrite bool_decide_eq_true_2 by eauto. cbn. by rewrite insert_id.
  - rewrite bool_decide_eq_false_2; [done |]. by intros [? ?].
Qed.

Lemma bind_run {A B} (m : M A) (f : A → M B) l :
  (m ≫= f) l = match m l with Returns a l' => f a l' | Raises e => Raises e end.
Proof. reflexivity. Qed.

Lemma ret_run {A} (a : A) l : mret (M := M) a l = Returns a l.
Proof. reflexivity. Qed.

Lemma getitem_store sym v l :
  getitem sym (store l sym v) = Returns sym (store l sym v).
Proof. unfold getitem, store; cbn. by rewrite lookup_insert_eq. Qed.

Lemma read_qty_store sym v l :
  read_qty sym (store l sym v) = Returns (qty v) (store l sym v).
Proof. unfold read_qty, store; cbn. by rewrite lookup_insert_eq. Qed.

Lemma read_avg_entry_store sym v l :
  read_avg_entry sym (store l sym v) = Returns (avg_entry v) (store l sym v).
Proof. unfold read_avg_entry, store; cbn. by rewrite lookup_insert_eq. Qed.

Lemma write_qty_store sym v x l :
  write_qty sym x (store l sym v)
  = Returns () (store l sym (mkPosition x (avg_entry v))).
Proof.
  unfold write_qty, store; cbn.
  by rewrite alter_insert_eq.
Qed.

Lemma write_avg_entry_store sym v x l :
  write_avg_entry sym x (store l sym v)
  = Returns () (store l sym (mkPosition (qty v) x)).
Proof.
  unfold write_avg_entry, store; cbn.
  by rewrite alter_insert_eq.
Qed.

Lemma add_realized_pnl_store sym v x l :
  add_realized_pnl x (store l sym v)
  = Returns () (store (mkLedger (realized_pnl l + x) (positions l)) sym v).
Proof. reflexivity. Qed.

Lemma truediv_run x y l : y ≠ 0 → truediv x y l = Returns (x / y) l.
Proof. intros. unfold truediv. by rewrite decide_False. Qed.

(** Rewrites one statement of a method body at a time. *)
Ltac run_step :=
  first
    [ rewrite bind_run
    | rewrite ret_run
    | rewrite ensure_run
    | rewrite getitem_store
    | rewrite read_qty_store
    | rewrite read_avg_entry_store
    | rewrite write_qty_store
    | rewrite write_avg_entry_store
    | rewrite add_realized_pnl_store
    | rewrite truediv_run by (auto using Qc_pos_ne_0, Qc_nle_pos) ];
  cbn [qty avg_entry].

Lemma buy_run sym price usdt_notional l :
  let p := position_of l sym in
  let f := if decide (0 < price) then usdt_notional / price else 0 in
  let new_qty := qty p + f in
  buy sym price usdt_notional l
  = Returns f
      (store l sym
         (if decide (new_qty ≤ 0) then mkPosition 0 0
          else mkPosition new_qty
                 (if decide (0 < qty p)
                  then (avg_entry p * qty p + price * f) / new_qty
                  else price))).
Proof.
  intros p f new_qty. subst p f new_qty. unfold buy.
  repeat run_step.
  destruct (decide (0 < price)) as [Hp|Hp]; repeat run_step;
    (destruct (decide (_ ≤ 0)) as [Hn|Hn]; repeat run_step; [done |]);
    (destruct (decide (0 < qty _)) as [Hq|Hq]; by repeat run_step).
Qed.

Lemma sell_run sym price usdt_notional l :
  let p := position_of l sym in
  let desired := if decide (0 < price) then usdt_notional / price else 0 in
  let f := py_min (qty p) desired in
  sell sym price usdt_notional l
  = if decide (f ≤ 0) then Returns 0 (store l sym p)
    else Returns f
           (store (mkLedger (realized_pnl l + (price - avg_entry p) * f)
                     (positions l))
              sym
              (if decide (qty p - f ≤ 0) then mkPosition 0 0
               else mkPosition (qty p - f) (avg_entry p))).
Proof.
  intros p desired f. subst p desired f. unfold sell.
  repeat run_step.
  destruct (decide (0 < price)) as [Hp|Hp]; repeat run_step;
    (destruct (decide (py_min _ _ ≤ 0)) as [Hf|Hf]; repeat run_step; [done |]);
    (destruct (decide (_ - _ ≤ 0)) as [Hr|Hr]; by repeat run_step).
Qed.

Lemma unrealized_run sym price l :
  let p := position_of l sym in
  unrealized sym price l
  = Returns (if decide (0 < qty p) then (price - avg_entry p) * qty p else 0)
      (store l sym p).
Proof.
  intros p. subst p. unfold unrealized.
  repeat run_step.
  destruct (decide (0 < qty _)); by repeat run_step.
Qed.

(** Reading a ledger after [store]. *)
Lemma position_of_store l sym v s :
  position_of (store l sym v) s = if decide (sym = s) then v else position_of l s.
Proof.
  unfold position_of, store; cbn. rewrite lookup_insert.
  by case_decide.
Qed.

Lemma position_of_store_eq l sym v : position_of (store l sym v) sym = v.
Proof. rewrite position_of_store. by rewrite decide_True. Qed.

Lemma position_of_store_ne l sym v s :
  sym ≠ s → position_of (store l sym v) s = position_of l s.
Proof. intros. rewrite position_of_store. by rewrite decide_False. Qed.

Lemma store_position_of l sym s :
  position_of (store l sym (position_of l sym)) s = position_of l s.
Proof. rewrite position_of_store. case_decide; by subst. Qed.

Lemma lookup_store l sym v s :
  positions (store l sym v) !! s
  = if decide (sym = s) then Some v else positions l !! s.
Proof. unfold store; cbn. apply lookup_insert. Qed.

(** ** Properties of every stored position *)

Lemma all_positions_new P : all_positions P Ledger_new.
Proof. apply map_Forall_empty. Qed.

Lemma all_positions_store P l sym v :
  P v → all_positions P l → all_positions P (store l sym v).
Proof. intros Hv Hl. unfold all_positions, store; cbn. by apply map_Forall_insert_2. Qed.

Lemma all_positions_position_of P l sym :
  P Position_new → all_positions P l → P (position_of l sym).
Proof.
  intros H0 Hl. unfold position_of.
  destruct (positions l !! sym) as [v|] eqn:E; [|done].
  apply (Hl _ _ E).
Qed.

Lemma all_positions_lookup P l sym v :
  all_positions P l → positions l !! sym = Some v → P v.
Proof. intros Hl E. apply (Hl _ _ E). Qed.

(** An invariant kept by every permitted call holds after each call of a
    sequence, and the sequence runs to its end. *)
Lemma run_invariant (Inv : Ledger → Prop) (ok : call → Prop) :
  (∀ c l, ok c → Inv l → ∃ l', perform c l = Returns () l' ∧ Inv l') →
  ∀ cs l, Forall ok cs → Inv l →
    ∃ ls l', run cs l = Returns ls l' ∧ Forall Inv ls ∧ length ls = length cs.
Proof.
  intros Hstep cs. induction cs as [|c cs IH]; intros l Hok Hl.
  - exists [], l. by repeat split.
  - apply Forall_cons in Hok as [Hc Hcs].
    destruct (Hstep c l Hc Hl) as (l1 & E1 & Hl1).
    destruct (IH l1 Hcs Hl1) as (ls & l' & E & Hls & Hlen).
    exists (l1 :: ls), l'. cbn [run].
    rewrite bind_run, E1, bind_run. unfold snapshot at 1.
    rewrite bind_run, E, ret_run.
    repeat split; [by constructor | cbn; by rewrite Hlen].
Qed.

(** The first statement of [perform c], for each kind of call. *)
Ltac perform_cases c :=
  destruct c as [sym|sym price n|sym price n|sym price];
  cbn [perform];
  [ rewrite ensure_run
  | rewrite bind_run, buy_run, ret_run
  | rewrite bind_run, sell_run; cbv zeta;
    destruct (decide (py_min _ _ ≤ 0)); rewrite ret_run
  | rewrite bind_run, unrealized_run, ret_run ].

Lemma sell_rest_cases (q f : Qc) (a : Qc) (P : Position → Prop) :
  P (mkPosition 0 0) → (0 < q - f → P (mkPosition (q - f) a)) →
  P (if decide (q - f ≤ 0) then mkPosition 0 0 else mkPosition (q - f) a).
Proof. intros H0 H1. case_decide; auto using Qc_nle_pos. Qed.

Lemma perform_flat_is_zeroed c l :
  all_positions flat_is_zeroed l →
  ∃ l', perform c l = Returns () l' ∧ all_positions flat_is_zeroed l'.
Proof.
  intros Hl.
  assert (H0 : flat_is_zeroed Position_new) by done.
  perform_cases c; eexists; (split; [reflexivity |]);
    apply all_positions_store; try done;
    try by apply all_positions_position_of.
  - cbv zeta. case_decide; [done |].
    intros Hq; cbn in Hq. by destruct (Qc_pos_ne_0 _ (Qc_nle_pos _ H)).
  - apply sell_rest_cases; [done |].
    intros Hpos Hq; cbn in Hq. by destruct (Qc_pos_ne_0 _ Hpos).
Qed.

Lemma py_min_spec (a b : Qc) :
  py_min a b ≤ a ∧ py_min a b ≤ b ∧ (py_min a b = a ∨ py_min a b = b).
Proof.
  split; [apply py_min_le_l |]. split; [apply py_min_le_r |].
  unfold py_min. case_decide; auto.
Qed.

(** ** Repeated buys *)







(** Closed goals about concrete ledgers are decided by evaluation. *)
Ltac by_evaluation := apply (bool_decide_eq_true_1 _); vm_compute; reflexivity.

(** ** The claims *)

(** C1. From a new ledger, buying BTCUSDT for 1000 at 100, buying for 2000
    at 200 and selling for 1500 at 150 fills 10, 10 and 10; the position is
    (10, 100), then (20, 150), then (10, 150); the sell books
    (150 - 150) * 10 = 0 and the realized PnL ends at 0. *)
Theorem scenario_buy_buy_sell :
  let sym := "BTCUSDT" in
  let l1 := mkLedger 0 {[ sym := mkPosition (Qc_of_Z 10) (Qc_of_Z 100) ]} in
  let l2 := mkLedger 0 {[ sym := mkPosition (Qc_of_Z 20) (Qc_of_Z 150) ]} in
  let l3 := mkLedger 0 {[ sym := mkPosition (Qc_of_Z 10) (Qc_of_Z 150) ]} in
  buy sym (Qc_of_Z 100) (Qc_of_Z 1000) Ledger_new = Returns (Qc_of_Z 10) l1
  ∧ buy sym (Qc_of_Z 200) (Qc_of_Z 2000) l1 = Returns (Qc_of_Z 10) l2
  ∧ sell sym (Qc_of_Z 150) (Qc_of_Z 1500) l2 = Returns (Qc_of_Z 10) l3
  ∧ realized_pnl l3 - realized_pnl l2
    = (Qc_of_Z 150 - Qc_of_Z 150) * Qc_of_Z 10
  ∧ (Qc_of_Z 150 - Qc_of_Z 150) * Qc_of_Z 10 = 0
  ∧ realized_pnl l3 = 0.
Proof. cbv zeta. repeat split; by_evaluation. Qed.

(** C3. Along any sequence of ensure, buy, sell and unrealized calls from a
    new ledger, every call returns, and in the ledger after each call every
    stored position with quantity 0 has average entry price 0. *)
Theorem flat_position_is_zeroed (cs : list call) :
  ∃ ls l', run cs Ledger_new = Returns ls l'
    ∧ length ls = length cs
    ∧ Forall (λ l, ∀ sym p, positions l !! sym = Some p →
                qty p = 0 → avg_entry p = 0) (Ledger_new :: ls).
Proof.
  destruct (run_invariant (all_positions flat_is_zeroed) (λ _, True)) with (cs := cs)
    (l := Ledger_new) as (ls & l' & E & Hls & Hlen);
    [intros c l _; apply perform_flat_is_zeroed
    | by apply Forall_true | apply all_positions_new |].
  exists ls, l'. repeat split; [done.. |].
  apply Forall_cons; split; [intros sym p Hp; cbn in Hp; by rewrite lookup_empty in Hp |].
  eapply Forall_impl; [exact Hls |].
  intros l Hl sym p Hp. exact (all_positions_lookup _ _ _ _ Hl Hp).
Qed.

(** C6. In any ledger, [sell] fills [f], the smaller of the quantity held
    and the desired quantity ([notional / price] for a positive price, else
    0).  When [f <= 0] it returns 0 and leaves the ledger as [ensure] alone
    does: every position and the realized PnL are unchanged.  Otherwise it
    returns [f], adds [(price - average entry) * f] to the realized PnL,
    lowers the quantity by [f], and makes the position (0, 0) when nothing
    remains. *)
Theorem sell_spec (l : Ledger) (sym : string) (price usdt_notional : Qc) :
  let p := position_of l sym in
  let desired := if decide (0 < price) then usdt_notional / price else 0 in
  let f := py_min (qty p) desired in
  (f ≤ qty p ∧ f ≤ desired ∧ (f = qty p ∨ f = desired))
  ∧ (f ≤ 0 →
     ∃ l', sell sym price usdt_notional l = Returns 0 l'
       ∧ ensure sym l = Returns () l'
       ∧ (∀ s, position_of l' s = position_of l s)
       ∧ realized_pnl l' = realized_pnl l)
  ∧ (0 < f →
     ∃ l', sell sym price usdt_notional l = Returns f l'
       ∧ realized_pnl l' = realized_pnl l + (price - avg_entry p) * f
       ∧ (qty p - f ≤ 0 → position_of l' sym = mkPosition 0 0)
       ∧ (0 < qty p - f → qty (position_of l' sym) = qty p - f)
       ∧ (∀ s, s ≠ sym → position_of l' s = position_of l s)).
Proof.
  intros p desired f.
  split; [apply py_min_spec |]. split.
  - intros Hf. eexists. rewrite sell_run; cbv zeta. fold p desired f.
    rewrite decide_True by done. split; [reflexivity |].
    rewrite ensure_run. split; [done |]. split; [|done].
    intros s. apply store_position_of.
  - intros Hf. eexists. rewrite sell_run; cbv zeta. fold p desired f.
    rewrite (decide_False (P := f ≤ 0)) by by apply Qclt_not_le.
    split; [reflexivity |]. split; [done |].
    rewrite position_of_store_eq.
    split; [intros Hle; by rewrite decide_True |].
    split; [|intros s Hs; by rewrite position_of_store_ne].
    intros Hrest. rewrite decide_False by by apply Qclt_not_le. done.
Qed.

Lemma sell_spec_witness :
  (∃ l',
     sell "BTCUSDT" (Qc_of_Z 150) (Qc_of_Z 1500)
       (mkLedger 0 {[ "BTCUSDT" := mkPosition (Qc_of_Z 20) (Qc_of_Z 150) ]})
     = Returns (Qc_of_Z 10) l'
     ∧ qty (position_of l' "BTCUSDT") = Qc_of_Z 10)
  ∧ (∃ l',
       sell "BTCUSDT" (Qc_of_Z 150) (Qc_of_Z 1500) Ledger_new = Returns 0 l'
       ∧ realized_pnl l' = realized_pnl Ledger_new).
Proof.
  split.
  - destruct (sell_spec
                (mkLedger 0 {[ "BTCUSDT" := mkPosition (Qc_of_Z 20) (Qc_of_Z 150) ]})
                "BTCUSDT" (Qc_of_Z 150) (Qc_of_Z 1500))
      as (_ & _ & Hpos).
    destruct Hpos as (l' & E & _ & _ & Hq & _); [by_evaluation |].
    exists l'. split.
    + rewrite E. f_equal. by_evaluation.
    + rewrite Hq by by_evaluation. by_evaluation.
  - destruct (sell_spec Ledger_new "BTCUSDT" (Qc_of_Z 150) (Qc_of_Z 1500))
      as (_ & Hle & _).
    destruct Hle as (l' & E & _ & _ & Hr); [by_evaluation |].
    exists l'. split; [exact E | exact Hr].
Defined.

(** C7. In any ledger and at any price, [unrealized] returns
    [(price - average entry) * quantity] when the quantity held is positive
    and 0 otherwise, so 0 for a symbol that has no entry yet.  It leaves
    every stored position and the realized PnL as they were: the mapping is
    the same, or the same with a zeroed entry added for the queried symbol
    when it had none. *)
Theorem unrealized_spec (l : Ledger) (sym : string) (price : Qc) :
  let p := position_of l sym in
  ∃ r l', unrealized sym price l = Returns r l'
    ∧ (0 < qty p → r = (price - avg_entry p) * qty p)
    ∧ (¬ 0 < qty p → r = 0)
    ∧ (positions l !! sym = None → r = 0)
    ∧ (∀ s v, positions l !! s = Some v → positions l' !! s = Some v)
    ∧ (∀ s, position_of l' s = position_of l s)
    ∧ realized_pnl l' = realized_pnl l
    ∧ (positions l' = positions l
       ∨ (positions l !! sym = None
          ∧ positions l' = <[sym := mkPosition 0 0]> (positions l))).
Proof.
  intros p. do 2 eexists. rewrite unrealized_run; cbv zeta. fold p.
  split; [reflexivity |].
  split; [intros Hq; by rewrite decide_True |].
  split; [intros Hq; by rewrite decide_False |].
  split.
  { intros Hnone. rewrite decide_False; [done |].
    subst p. unfold position_of. rewrite Hnone. cbn. apply (irreflexivity (<)). }
  split.
  { intros s v Hs. rewrite lookup_store. case_decide as Heq; [|done].
    subst s. f_equal. subst p. unfold position_of. by rewrite Hs. }
  split; [intros s; apply store_position_of |]. split; [done |].
  subst p. unfold position_of, store; cbn.
  destruct (positions l !! sym) as [v|] eqn:E; cbn.
  - left. by apply insert_id.
  - right. done.
Qed.

Lemma unrealized_spec_witness :
  ∃ r l',
    unrealized "BTCUSDT" (Qc_of_Z 160)
      (mkLedger 0 {[ "BTCUSDT" := mkPosition (Qc_of_Z 20) (Qc_of_Z 150) ]})
    = Returns r l'
    ∧ r = Qc_of_Z 200
    ∧ positions l'
      = {[ "BTCUSDT" := mkPosition (Qc_of_Z 20) (Qc_of_Z 150) ]}.
Proof.
  destruct (unrealized_spec
              (mkLedger 0 {[ "BTCUSDT" := mkPosition (Qc_of_Z 20) (Qc_of_Z 150) ]})
              "BTCUSDT" (Qc_of_Z 160))
    as (r & l' & E & Hlong & _ & _ & _ & _ & _ & Hmap).
  exists r, l'. split; [exact E |]. split.
  - rewrite Hlong by by_evaluation. by_evaluation.
  - destruct Hmap as [Hsame | [Hnone _]]; [exact Hsame | discriminate Hnone].
Defined.



(** C10. A [sell] that fills more than 0 and less than the quantity held
    leaves the average entry price of the position exactly as it was; the
    quantity drops by the fill, the realized PnL grows by
    [(price - average entry) * fill], and no other position changes. *)
Theorem partial_sell_keeps_avg_entry
    (l l' : Ledger) (sym : string) (price usdt_notional f : Qc) :
  sell sym price usdt_notional l = Returns f l' →
  0 < f → f < qty (position_of l sym) →
  avg_entry (position_of l' sym) = avg_entry (position_of l sym)
  ∧ qty (position_of l' sym) = qty (position_of l sym) - f
  ∧ realized_pnl l' = realized_pnl l + (price - avg_entry (position_of l sym)) * f
  ∧ (∀ s, s ≠ sym → position_of l' s = position_of l s).
Proof.
  intros Hsell Hf Hlt. rewrite sell_run in Hsell; cbv zeta in Hsell.
  destruct (decide (py_min _ _ ≤ 0)) as [Hle|Hle].
  - inversion Hsell; subst. by destruct (irreflexivity (<) (0 : Qc)).
  - inversion Hsell as [[Ef El]]. rewrite Ef in *. clear Hsell.
    rewrite (decide_False (P := _ - f ≤ 0)) by by apply Qclt_not_le, Qc_sub_pos.
    rewrite position_of_store_eq; cbn [qty avg_entry].
    do 3 (split; [done |]).
    intros s Hs. rewrite position_of_store_ne by done.
    reflexivity.
Qed.

Lemma partial_sell_keeps_avg_entry_witness :
  let l := mkLedger 0 {[ "BTCUSDT" := mkPosition (Qc_of_Z 20) (Qc_of_Z 150) ]} in
  let l' := mkLedger (Qc_of_Z 100)
              {[ "BTCUSDT" := mkPosition (Qc_of_Z 10) (Qc_of_Z 150) ]} in
  sell "BTCUSDT" (Qc_of_Z 160) (Qc_of_Z 1600) l = Returns (Qc_of_Z 10) l'
  ∧ avg_entry (position_of l' "BTCUSDT") = avg_entry (position_of l "BTCUSDT")
  ∧ qty (position_of l' "BTCUSDT") = qty (position_of l "BTCUSDT") - Qc_of_Z 10
  ∧ realized_pnl l'
    = realized_pnl l
      + (Qc_of_Z 160 - avg_entry (position_of l "BTCUSDT")) * Qc_of_Z 10
  ∧ (∀ s, s ≠ "BTCUSDT" → position_of l' s = position_of l s).
Proof.
  cbv zeta.
  assert (E : sell "BTCUSDT" (Qc_of_Z 160) (Qc_of_Z 1600)
                (mkLedger 0 {[ "BTCUSDT" := mkPosition (Qc_of_Z 20) (Qc_of_Z 150) ]})
              = Returns (Qc_of_Z 10)
                  (mkLedger (Qc_of_Z 100)
                     {[ "BTCUSDT" := mkPosition (Qc_of_Z 10) (Qc_of_Z 150) ]}))
    by by_evaluation.
  split; [exact E |].
  apply (partial_sell_keeps_avg_entry _ _ _ _ _ _ E); by_evaluation.
Defined.

(** * Beyond the claims *)

(** ** The ledger: closing a position *)




(** ** The polling loop *)

Lemma hoare_bind {A B} P (m : M A) Q (f : A → M B) R :
  hoare P m Q → (∀ a, hoare (Q a) (f a) R) → hoare P (m ≫= f) R.
Proof.
  intros Hm Hf l Hl. destruct (Hm l Hl) as (a & l1 & E & Hq).
  destruct (Hf a l1 Hq) as (b & l2 & E2 & Hr).
  exists b, l2. rewrite bind_run, E. by split.
Qed.

Lemma hoare_ret {A} (P : Ledger → Prop) (a : A) (Q : A → Ledger → Prop) :
  (∀ l, P l → Q a l) → hoare P (mret a) Q.
Proof. intros H l Hl. exists a, l. split; [done | by apply H]. Qed.

Lemma py_max_le_l (a b : Qc) : a ≤ py_max a b.
Proof. unfold py_max. case_decide; [by apply Qclt_le_weak | apply Qcle_refl]. Qed.

Lemma py_max_le_r (a b : Qc) : b ≤ py_max a b.
Proof. unfold py_max. case_decide; [apply Qcle_refl | by apply Qcnot_lt_le]. Qed.

Lemma py_max_cases (a b : Qc) : py_max a b = a ∨ py_max a b = b.
Proof. unfold py_max. case_decide; auto. Qed.

(** The strength of a signal, clamped to between 1/10 and 2. *)
Lemma strength_clamped (strength : Qc) :
  Qc_of_Z 1 / Qc_of_Z 10 ≤ py_max (Qc_of_Z 1 / Qc_of_Z 10) (py_min (Qc_of_Z 2) strength)
  ∧ py_max (Qc_of_Z 1 / Qc_of_Z 10) (py_min (Qc_of_Z 2) strength) ≤ Qc_of_Z 2.
Proof.
  split; [apply py_max_le_l |].
  destruct (py_max_cases (Qc_of_Z 1 / Qc_of_Z 10) (py_min (Qc_of_Z 2) strength))
    as [-> | ->]; [by_evaluation | apply py_min_le_l].
Qed.

(** X7. The notional the loop trades for a signal is at least 5 for every
    base quantity and strength; with a base quantity of at least 0 it is at
    most the larger of 5 and twice the base quantity; and for a strength
    between 1/10 and 2 whose product with the base quantity exceeds 5 it is
    exactly that product. *)
Theorem signal_notional_bounds (BASE_QTY strength : Qc) :
  Qc_of_Z 5 ≤ signal_notional BASE_QTY strength
  ∧ (0 ≤ BASE_QTY →
     signal_notional BASE_QTY strength
     ≤ py_max (Qc_of_Z 5) (Qc_of_Z 2 * BASE_QTY))
  ∧ (Qc_of_Z 1 / Qc_of_Z 10 ≤ strength → strength ≤ Qc_of_Z 2 →
     Qc_of_Z 5 < BASE_QTY * strength →
     signal_notional BASE_QTY strength = BASE_QTY * strength).
Proof.
  unfold signal_notional.
  destruct (strength_clamped strength) as [Hlo Hhi].
  split; [apply py_max_le_l |]. split.
  - intros Hbase.
    destruct (py_max_cases (Qc_of_Z 5)
                (BASE_QTY * py_max (Qc_of_Z 1 / Qc_of_Z 10)
                              (py_min (Qc_of_Z 2) strength))) as [-> | ->];
      [apply py_max_le_l |].
    eapply Qcle_trans; [|apply py_max_le_r].
    rewrite (Qcmult_comm (Qc_of_Z 2)).
    by apply Qcmult_le_mono_nonneg_l.
  - intros Hs1 Hs2 Hprod.
    assert (py_min (Qc_of_Z 2) strength = strength) as ->.
    { unfold py_min. case_decide; [done |].
      apply Qcle_antisym; [by apply Qcnot_lt_le | done]. }
    assert (py_max (Qc_of_Z 1 / Qc_of_Z 10) strength = strength) as ->.
    { unfold py_max. case_decide; [done |].
      apply Qcle_antisym; [done | by apply Qcnot_lt_le]. }
    unfold py_max. by rewrite decide_True.
Qed.

Lemma signal_notional_bounds_witness :
  Qc_of_Z 5 ≤ signal_notional (Qc_of_Z 10) (Qc_of_Z 1)
  ∧ signal_notional (Qc_of_Z 10) (Qc_of_Z 1)
    ≤ py_max (Qc_of_Z 5) (Qc_of_Z 2 * Qc_of_Z 10)
  ∧ signal_notional (Qc_of_Z 10) (Qc_of_Z 1) = Qc_of_Z 10 * Qc_of_Z 1.
Proof.
  destruct (signal_notional_bounds (Qc_of_Z 10) (Qc_of_Z 1)) as (H5 & Hup & Heq).
  split; [exact H5 |]. split; [apply Hup; by_evaluation |].
  apply Heq; by_evaluation.
Defined.

Lemma hoare_read_realized_pnl (P : Ledger → Prop) :
  hoare P read_realized_pnl (λ r l, r = realized_pnl l ∧ P l).
Proof. intros l Hl. by exists (realized_pnl l), l. Qed.

(** A fact about the result so far is kept across the next statement. *)
Lemma hoare_pure {A} (φ : Prop) (P : Ledger → Prop) (m : M A) Q :
  (φ → hoare P m Q) → hoare (λ l, φ ∧ P l) m Q.
Proof. intros H l [Hφ Hl]. by apply H. Qed.

(** X9. A signal the loop cannot act on is dropped without a trace: when
    the symbol has no positive price (none at all, or one that is not above
    0), or the side is neither buy nor sell, nothing is logged and the
    ledger is left exactly as it was, without even a zeroed entry for the
    symbol. *)
Theorem signal_without_price_or_side_is_dropped
    (BASE_QTY : Qc) (prices : gmap string Qc) (sig : Signal) (l : Ledger) :
  prices_get prices (symbol sig) ≤ 0 ∨ (side sig ≠ "buy" ∧ side sig ≠ "sell") →
  handle_signal BASE_QTY prices sig l = Returns [] l.
Proof.
  intros H. unfold handle_signal.
  destruct (decide (prices_get prices (symbol sig) ≤ 0)) as [Hpx|Hpx]; [done |].
  destruct H as [H | [Hb Hs]]; [done |].
  by rewrite (decide_False (P := side sig = "buy")),
    (decide_False (P := side sig = "sell")).
Qed.

Lemma signal_without_price_or_side_is_dropped_witness :
  handle_signal (Qc_of_Z 10) ∅ (mkSignal "BTCUSDT" "buy" (Qc_of_Z 1)) Ledger_new
  = Returns [] Ledger_new
  ∧ handle_signal (Qc_of_Z 10) {[ "BTCUSDT" := Qc_of_Z 100 ]}
      (mkSignal "BTCUSDT" "hold" (Qc_of_Z 1)) Ledger_new
    = Returns [] Ledger_new.
Proof.
  split.
  - apply (signal_without_price_or_side_is_dropped
             (Qc_of_Z 10) ∅ (mkSignal "BTCUSDT" "buy" (Qc_of_Z 1)) Ledger_new).
    left. by_evaluation.
  - apply (signal_without_price_or_side_is_dropped
             (Qc_of_Z 10) {[ "BTCUSDT" := Qc_of_Z 100 ]}
             (mkSignal "BTCUSDT" "hold" (Qc_of_Z 1)) Ledger_new).
    right. split; discriminate.
Defined.

(** An actionable signal logs one row, whatever the ledger holds. *)
Lemma handle_signal_actionable BASE_QTY prices sig l :
  actionable prices sig →
  ∃ q l',
    handle_signal BASE_QTY prices sig l
    = Returns [mkTradeRow (symbol sig) (side sig) q
                 (prices_get prices (symbol sig))
                 (signal_notional BASE_QTY (strength sig))
                 (realized_pnl l')] l'.
Proof.
  intros [Hpx Hside]. unfold handle_signal.
  rewrite (decide_False (P := _ ≤ 0)) by by apply Qclt_not_le.
  destruct (decide (side sig = "buy")) as [Hb|Hb].
  - rewrite Hb, bind_run, buy_run; cbv zeta. by do 2 eexists.
  - destruct Hside as [? | Hs]; [done |].
    rewrite (decide_True (P := side sig = "sell")) by done.
    rewrite Hs, bind_run, sell_run; cbv zeta.
    case_decide; by do 2 eexists.
Qed.

(** X10. Draining the queue always returns, and logs exactly the signals
    that have a positive price and a side of buy or sell, one row each and
    in queue order, with the signal's symbol and side, the current price
    and the notional computed from the strength; a sell that fills nothing
    is logged like any other. *)
Theorem handle_signals_logs_actionable
    (BASE_QTY : Qc) (prices : gmap string Qc) (queue : list Signal) (l : Ledger) :
  ∃ rows l',
    handle_signals BASE_QTY prices queue l = Returns rows l'
    ∧ (λ r, (row_symbol r, row_side r, row_price r, row_notional r)) <$> rows
      = (λ sig, (symbol sig, side sig, prices_get prices (symbol sig),
                 signal_notional BASE_QTY (strength sig)))
        <$> filter (actionable prices) queue.
Proof.
  revert l. induction queue as [|sig queue IH]; intros l; cbn [handle_signals].
  - by exists [], l.
  - destruct (decide (actionable prices sig)) as [Hact|Hact].
    + destruct (handle_signal_actionable BASE_QTY prices sig l Hact)
        as (q & l1 & E1).
      destruct (IH l1) as (rest & l' & E & Hrest).
      eexists _, l'. rewrite bind_run, E1, bind_run, E, ret_run.
      split; [reflexivity |].
      rewrite filter_cons_True by done. cbn. by rewrite Hrest.
    + assert (E1 : handle_signal BASE_QTY prices sig l = Returns [] l).
      { apply signal_without_price_or_side_is_dropped.
        destruct (decide (prices_get prices (symbol sig) ≤ 0)); [by left |].
        right. split; intros Hs; apply Hact;
          (split; [by apply Qc_nle_pos | auto]). }
      destruct (IH l) as (rest & l' & E & Hrest).
      eexists _, l'. rewrite bind_run, E1, bind_run, E, ret_run.
      split; [reflexivity |].
      rewrite filter_cons_False by done. by cbn.
Qed.

(** X11. A sell signal for a symbol with nothing held still writes a row:
    with a positive price and a flat position the loop logs a sell of
    quantity 0 at the current price, with the realized PnL unchanged, and
    the ledger reads as before. *)
Theorem sell_signal_on_flat_position_logs_zero
    (BASE_QTY : Qc) (prices : gmap string Qc) (sig : Signal) (l : Ledger) :
  side sig = "sell" → 0 < prices_get prices (symbol sig) →
  qty (position_of l (symbol sig)) = 0 →
  ∃ l',
    handle_signal BASE_QTY prices sig l
    = Returns [mkTradeRow (symbol sig) "sell" 0
                 (prices_get prices (symbol sig))
                 (signal_notional BASE_QTY (strength sig))
                 (realized_pnl l)] l'
    ∧ same_books l l'.
Proof.
  intros Hside Hpx Hflat. unfold handle_signal.
  rewrite (decide_False (P := _ ≤ 0)) by by apply Qclt_not_le.
  rewrite (decide_False (P := side sig = "buy")) by by rewrite Hside.
  rewrite (decide_True (P := side sig = "sell")) by done.
  rewrite bind_run, sell_run; cbv zeta.
  rewrite (decide_True (P := py_min _ _ ≤ 0)).
  2:{ rewrite Hflat. apply py_min_le_l. }
  eexists. split; [reflexivity |].
  split; [done |]. intros s. apply store_position_of.
Qed.

Lemma sell_signal_on_flat_position_logs_zero_witness :
  ∃ l',
    handle_signal (Qc_of_Z 10) {[ "BTCUSDT" := Qc_of_Z 100 ]}
      (mkSignal "BTCUSDT" "sell" (Qc_of_Z 1)) Ledger_new
    = Returns [mkTradeRow "BTCUSDT" "sell" 0 (Qc_of_Z 100)
                 (signal_notional (Qc_of_Z 10) (Qc_of_Z 1)) 0] l'
    ∧ same_books Ledger_new l'.
Proof.
  destruct (sell_signal_on_flat_position_logs_zero (Qc_of_Z 10)
              {[ "BTCUSDT" := Qc_of_Z 100 ]}
              (mkSignal "BTCUSDT" "sell" (Qc_of_Z 1)) Ledger_new)
    as (l' & E & Hsame); [reflexivity | by_evaluation | reflexivity |].
  exists l'. split; [|exact Hsame].
  rewrite E. reflexivity.
Defined.

(** ** The snapshot *)

Lemma same_books_refl l : same_books l l.
Proof. by split. Qed.

Lemma unrealized_same_books l0 s px :
  hoare (same_books l0) (unrealized s px)
    (λ u l, u = unrealized_of (position_of l0 s) px ∧ same_books l0 l).
Proof.
  intros l [Hr Hp]. do 2 eexists. rewrite unrealized_run; cbv zeta.
  split; [reflexivity |]. split; [by rewrite Hp |].
  split; [done |]. intros s'. rewrite store_position_of. apply Hp.
Qed.

Lemma positions_get_same_books l0 s :
  hoare (same_books l0) (positions_get s)
    (λ p l, p = position_of l0 s ∧ same_books l0 l).
Proof.
  intros l Hl. exists (position_of l s), l. split; [done |].
  split; [apply Hl | done].
Qed.

Lemma dict_comprehension_hoare {V} (I : Ledger → Prop)
    (f : string → M V) (val : string → V) keys acc :
  (∀ s, hoare I (f s) (λ v l, v = val s ∧ I l)) →
  hoare I (dict_comprehension f keys acc)
    (λ m l, m = foldl (λ a s, <[s := val s]> a) acc keys ∧ I l).
Proof.
  intros Hf. revert acc.
  induction keys as [|s keys IH]; intros acc; cbn [dict_comprehension foldl].
  - apply hoare_ret. by intros l Hl.
  - eapply hoare_bind; [apply Hf |]. intros v. cbv beta.
    apply hoare_pure. intros ->. apply IH.
Qed.

Lemma lookup_foldl_insert {V} (val : string → V) keys (acc : gmap string V) s :
  foldl (λ a k, <[k := val k]> a) acc keys !! s
  = if decide (s ∈ keys) then Some (val s) else acc !! s.
Proof.
  revert acc. induction keys as [|k keys IH]; intros acc; cbn [foldl].
  - rewrite decide_False; [done | by apply not_elem_of_nil].
  - rewrite IH. destruct (decide (s ∈ keys)) as [Hin|Hin].
    + rewrite decide_True; [done | by right].
    + destruct (decide (k = s)) as [->|Hne].
      * rewrite lookup_insert_eq, decide_True; [done | by left].
      * rewrite lookup_insert_ne by done.
        rewrite decide_False; [done |].
        intros [?|?]%elem_of_cons; congruence.
Qed.

(** The snapshot is a function of what the ledger reads as. *)
Lemma build_state_same_books l0 SYMBOLS paused now prices :
  hoare (same_books l0) (build_state SYMBOLS paused now prices)
    (λ st l,
       st = mkState now SYMBOLS prices
              (foldl (λ a s, <[s := position_of l0 s]> a) ∅ SYMBOLS)
              (realized_pnl l0)
              (foldl (λ a s,
                        <[s := unrealized_of (position_of l0 s)
                                 (prices_get prices s)]> a) ∅ SYMBOLS)
              paused
       ∧ same_books l0 l).
Proof.
  unfold build_state.
  eapply hoare_bind.
  { apply (dict_comprehension_hoare (same_books l0) _ (position_of l0)).
    intros s.
    eapply hoare_bind; [apply positions_get_same_books |]. intros p1. cbv beta.
    apply hoare_pure. intros ->.
    eapply hoare_bind; [apply positions_get_same_books |]. intros p2. cbv beta.
    apply hoare_pure. intros ->. apply hoare_ret.
    intros l Hl. split; [|done]. by destruct (position_of l0 s). }
  intros ps. cbv beta. apply hoare_pure. intros ->.
  eapply hoare_bind; [apply hoare_read_realized_pnl |]. intros r. cbv beta.
  eapply hoare_bind.
  { instantiate (1 := λ us l,
      us = foldl (λ a s, <[s := unrealized_of (position_of l0 s)
                                  (prices_get prices s)]> a) ∅ SYMBOLS
      ∧ (r = realized_pnl l0 ∧ same_books l0 l)).
    intros l [-> Hl].
    destruct (dict_comprehension_hoare (same_books l0)
                (λ s, unrealized s (prices_get prices s))
                (λ s, unrealized_of (position_of l0 s) (prices_get prices s))
                SYMBOLS ∅ (λ s, unrealized_same_books l0 s _) l Hl)
      as (us & l' & E & -> & Hl').
    eexists _, l'. split; [exact E |]. split; [done |]. split; [|done].
    by destruct Hl. }
  intros us. cbv beta. apply hoare_pure. intros ->.
  apply hoare_ret. by intros l [-> Hl].
Qed.

(** X12. The snapshot shows the ledger as it was before the call: it always
    returns; its realized PnL is the ledger's; for every listed symbol its
    position is the stored one, or (0, 0) when there is none, and its
    unrealized PnL is computed from that position at the symbol's price,
    taken as 0 when no price is known; symbols that are not listed do not
    appear; and afterwards the ledger reads as before. *)
Theorem build_state_reads_the_books
    (SYMBOLS : list string) (paused : bool) (now : Z)
    (prices : gmap string Qc) (l : Ledger) :
  ∃ st l',
    build_state SYMBOLS paused now prices l = Returns st l'
    ∧ st_realized_pnl st = realized_pnl l
    ∧ (∀ s, s ∈ SYMBOLS →
         st_positions st !! s = Some (position_of l s)
         ∧ st_unrealized st !! s
           = Some (unrealized_of (position_of l s) (prices_get prices s)))
    ∧ (∀ s, s ∉ SYMBOLS →
         st_positions st !! s = None ∧ st_unrealized st !! s = None)
    ∧ same_books l l'.
Proof.
  destruct (build_state_same_books l SYMBOLS paused now prices l (same_books_refl l))
    as (st & l' & E & -> & Hl').
  eexists _, l'. split; [exact E |]. cbn. split; [done |].
  split; [|split; [|done]]; intros s Hs; rewrite !lookup_foldl_insert.
  - by rewrite !decide_True.
  - by rewrite !decide_False.
Qed.

(** X13. Taking the snapshot again shows the same thing: a second
    [build_state] with the same prices, clock reading and pause flag, run
    on the ledger the first one left, returns the same snapshot. *)
Theorem build_state_is_repeatable
    (SYMBOLS : list string) (paused : bool) (now : Z)
    (prices : gmap string Qc) (l l1 : Ledger) (st : State) :
  build_state SYMBOLS paused now prices l = Returns st l1 →
  ∃ l2, build_state SYMBOLS paused now prices l1 = Returns st l2.
Proof.
  intros E.
  destruct (build_state_same_books l SYMBOLS paused now prices l (same_books_refl l))
    as (st' & l1' & E' & Hst & Hl1).
  rewrite E in E'. injection E' as <- <-.
  destruct (build_state_same_books l SYMBOLS paused now prices l1 Hl1)
    as (st2 & l2 & E2 & Hst2 & _).
  exists l2. by rewrite E2, Hst2, Hst.
Qed.

Lemma build_state_is_repeatable_witness :
  ∃ l2,
    build_state ["BTCUSDT"; "XRPUSDT"] false 0 {[ "BTCUSDT" := Qc_of_Z 160 ]}
      (mkLedger 0
         {[ "BTCUSDT" := mkPosition (Qc_of_Z 20) (Qc_of_Z 150);
            "XRPUSDT" := mkPosition 0 0 ]})
    = Returns
        (mkState 0 ["BTCUSDT"; "XRPUSDT"] {[ "BTCUSDT" := Qc_of_Z 160 ]}
           {[ "BTCUSDT" := mkPosition (Qc_of_Z 20) (Qc_of_Z 150);
              "XRPUSDT" := mkPosition 0 0 ]}
           0
           {[ "BTCUSDT" := Qc_of_Z 200; "XRPUSDT" := 0 ]}
           false)
        l2.
Proof.
  apply (build_state_is_repeatable ["BTCUSDT"; "XRPUSDT"] false 0
           {[ "BTCUSDT" := Qc_of_Z 160 ]}
           (mkLedger 0 {[ "BTCUSDT" := mkPosition (Qc_of_Z 20) (Qc_of_Z 150) ]})).
  by_evaluation.
Defined.

Lemma sum_unrealized_same_books l0 prices keys acc :
  hoare (same_books l0) (sum_unrealized prices keys acc)
    (λ total l,
       total = foldl (λ a s, a + unrealized_of (position_of l0 s)
                                   (prices_get prices s)) acc keys
       ∧ same_books l0 l).
Proof.
  revert acc. induction keys as [|s keys IH]; intros acc;
    cbn [sum_unrealized foldl].
  - apply hoare_ret. by intros l Hl.
  - eapply hoare_bind; [apply unrealized_same_books |]. intros u. cbv beta.
    apply hoare_pure. intros ->. apply IH.
Qed.

(** X14. Writing the snapshot and printing the status line change nothing
    the ledger holds: a pass always returns, logs exactly the rows of
    draining its queue, leaves a ledger that reads the same as right after
    the drain, and prints as total the sum, over the listed symbols taken
    from the left, of each position's unrealized PnL at the symbol's price
    (0 when no price is known). *)
Theorem loop_body_reports_without_trading
    (BASE_QTY : Qc) (SYMBOLS : list string) (t : Tick) (l : Ledger) :
  ∃ rows l1 st upnl l',
    handle_signals BASE_QTY (tick_prices t) (tick_queue t) l = Returns rows l1
    ∧ loop_body BASE_QTY SYMBOLS t l = Returns (rows, st, upnl) l'
    ∧ same_books l1 l'
    ∧ upnl = foldl (λ a s, a + unrealized_of (position_of l1 s)
                                 (prices_get (tick_prices t) s)) 0 SYMBOLS
    ∧ (tick_write t = false → st = None)
    ∧ (tick_write t = true → ∃ s, st = Some s ∧ st_realized_pnl s = realized_pnl l1).
Proof.
  destruct (handle_signals_logs_actionable BASE_QTY (tick_prices t) (tick_queue t) l)
    as (rows & l1 & E1 & _).
  unfold loop_body. rewrite bind_run, E1.
  destruct (tick_write t) eqn:Hw.
  - destruct (build_state_same_books l1 SYMBOLS (tick_paused t) (tick_now t)
                (tick_prices t) l1 (same_books_refl l1))
      as (st & l2 & E2 & Hst & Hl2).
    destruct (sum_unrealized_same_books l1 (tick_prices t) SYMBOLS 0 l2 Hl2)
      as (upnl & l' & E3 & Hupnl & Hl').
    exists rows, l1, (Some st), upnl, l'. split; [done |].
    rewrite !bind_run, E2, ret_run. unfold upnl_total.
    rewrite bind_run, E3, ret_run.
    split; [done |]. split; [done |]. split; [done |].
    split; [done |]. intros _. exists st. split; [done |]. by rewrite Hst.
  - destruct (sum_unrealized_same_books l1 (tick_prices t) SYMBOLS 0 l1
                (same_books_refl l1))
      as (upnl & l' & E3 & Hupnl & Hl').
    exists rows, l1, None, upnl, l'. split; [done |].
    rewrite bind_run, ret_run. unfold upnl_total.
    rewrite bind_run, E3, ret_run.
    split; [done |]. split; [done |]. split; [done |].
    split; [done |]. done.
Qed.

(** ** The trade log *)

Lemma handle_signal_rows BASE_QTY prices sig l :
  ∃ rows l1,
    handle_signal BASE_QTY prices sig l = Returns rows l1
    ∧ ((rows = [] ∧ l1 = l)
       ∨ ∃ r, rows = [r] ∧ row_realized_pnl_after r = realized_pnl l1).
Proof.
  destruct (decide (actionable prices sig)) as [Hact|Hact].
  - destruct (handle_signal_actionable BASE_QTY prices sig l Hact) as (q & l1 & E).
    eexists _, l1. split; [exact E |]. right. by eexists.
  - exists [], l. split; [|by left].
    apply signal_without_price_or_side_is_dropped.
    destruct (decide (prices_get prices (symbol sig) ≤ 0)); [by left |].
    right. split; intros Hs; apply Hact;
      (split; [by apply Qc_nle_pos | auto]).
Qed.

(** X15. The trade log ends where the ledger stands: after draining a
    queue, the realized PnL of the ledger is the one written in the last
    row logged, and is unchanged when nothing was logged. *)
Theorem last_row_carries_realized_pnl
    (BASE_QTY : Qc) (prices : gmap string Qc) (queue : list Signal) (l : Ledger) :
  ∃ rows l',
    handle_signals BASE_QTY prices queue l = Returns rows l'
    ∧ realized_pnl l'
      = default (realized_pnl l) (row_realized_pnl_after <$> last rows).
Proof.
  revert l. induction queue as [|sig queue IH]; intros l; cbn [handle_signals].
  - by exists [], l.
  - destruct (handle_signal_rows BASE_QTY prices sig l) as (rows1 & l1 & E1 & Hrows).
    destruct (IH l1) as (rest & l' & E & Hlast).
    exists (rows1 ++ rest), l'. rewrite bind_run, E1, bind_run, E, ret_run.
    split; [done |]. rewrite Hlast.
    destruct Hrows as [[-> ->] | (r & -> & Hr)]; [done |].
    destruct rest as [|r' rest]; [by cbn |].
    cbn [app]. rewrite last_cons_cons.
    destruct (last (r' :: rest)) as [x|] eqn:Hx; [done |].
    by apply last_None in Hx.
Qed.


(** * The ledger in binary64 *)

Import PrimFloat.

(** ** Facts of binary64 arithmetic

    Read off the specification of the primitive operations
    ([SpecFloat]): comparisons, signs, and the few exact results the
    ledger relies on. *)

Lemma Prim2SF_zero : FloatOps.Prim2SF 0%float = SpecFloat.S754_zero false.
Proof. reflexivity. Qed.


(** Moves a goal about floats to their specification. *)
Ltac to_spec :=
  rewrite ?FloatAxioms.ltb_spec, ?FloatAxioms.leb_spec, ?FloatAxioms.eqb_spec,
    ?FloatAxioms.add_spec, ?FloatAxioms.sub_spec, ?FloatAxioms.mul_spec,
    ?FloatAxioms.div_spec, ?Prim2SF_zero in *.

Ltac spec_cases x :=
  let s := fresh "s" in
  destruct (FloatOps.Prim2SF x) as [s|s| |s ? ?]; try destruct s.

Lemma ltb_zero_ne_zero x : (0 <? x)%float = true → (x =? 0)%float = false.
Proof. to_spec. by spec_cases x. Qed.

Lemma not_leb_zero_ne_zero x : (x <=? 0)%float = false → (x =? 0)%float = false.
Proof. to_spec. by spec_cases x. Qed.

Lemma ltb_zero_leb_zero x : (x <? 0)%float = true → (x <=? 0)%float = true.
Proof. to_spec. by spec_cases x. Qed.

Lemma is_nan_spec x :
  is_nan x = false → FloatOps.Prim2SF x ≠ SpecFloat.S754_nan.
Proof.
  unfold is_nan. rewrite FloatAxioms.eqb_spec. intros H E. by rewrite E in H.
Qed.

Lemma not_leb_zero_leb x :
  (x <=? 0)%float = false → is_nan x = false → (0 <=? x)%float = true.
Proof.
  intros H Hnan. apply is_nan_spec in Hnan. revert H Hnan. to_spec.
  by spec_cases x.
Qed.

Lemma not_positive_add_zero x :
  is_nan x = false → (0 <? x)%float = false → (x + 0 <=? 0)%float = true.
Proof.
  intros Hnan H. apply is_nan_spec in Hnan. revert H Hnan. to_spec.
  by spec_cases x.
Qed.




Lemma SFcompare_refl x :
  x ≠ SpecFloat.S754_nan → SpecFloat.SFcompare x x = Some Eq.
Proof.
  destruct x as [[]|[]| |[] m e]; try done; intros _; cbn;
    by rewrite Z.compare_refl, Pos.compare_cont_refl.
Qed.

Lemma ltb_irrefl x : (x <? x)%float = false.
Proof.
  to_spec. unfold SpecFloat.SFltb.
  destruct (FloatOps.Prim2SF x) as [s|s| |s m e] eqn:E; [| |done|];
    by rewrite SFcompare_refl.
Qed.







(** Rounding keeps the sign it is given. *)
Lemma binary_round_aux_not_negative mx ex lx :
  SpecFloat.SFltb
    (SpecFloat.binary_round_aux FloatOps.prec FloatOps.emax false mx ex lx)
    (SpecFloat.S754_zero false) = false.
Proof.
  unfold SpecFloat.binary_round_aux.
  destruct (SpecFloat.shr_fexp _ _ mx ex lx) as [mrs' e'].
  destruct (SpecFloat.shr_fexp _ _ _ e' _) as [mrs'' e''].
  destruct (SpecFloat.shr_m mrs''); [done | | done].
  by destruct (Z.leb _ _).
Qed.

Lemma binary_round_not_negative m e :
  SpecFloat.SFltb (SpecFloat.binary_round FloatOps.prec FloatOps.emax false m e)
    (SpecFloat.S754_zero false) = false.
Proof.
  unfold SpecFloat.binary_round.
  destruct (SpecFloat.shl_align _ _ _) as [mz ez].
  apply binary_round_aux_not_negative.
Qed.

Lemma mul_not_negative x y :
  B64.not_negative x → B64.not_negative y → B64.not_negative (x * y).
Proof.
  unfold B64.not_negative. to_spec.
  destruct (FloatOps.Prim2SF x) as [[]|[]| |[] mx ex]; try done;
    destruct (FloatOps.Prim2SF y) as [[]|[]| |[] my ey]; try done.
  intros _ _. apply binary_round_aux_not_negative.
Qed.

Lemma mul_zero_not_negative x : B64.not_negative (x * 0).
Proof.
  unfold B64.not_negative. to_spec.
  by destruct (FloatOps.Prim2SF x) as [[]|[]| |[] mx ex].
Qed.

Lemma add_not_negative x y :
  B64.not_negative x → B64.not_negative y → B64.not_negative (x + y).
Proof.
  unfold B64.not_negative. to_spec.
  destruct (FloatOps.Prim2SF x) as [[]|[]| |[] mx ex]; try done;
    destruct (FloatOps.Prim2SF y) as [[]|[]| |[] my ey]; try done.
  intros _ _. unfold FloatAxioms.SF64add, SpecFloat.SFadd. cbv zeta.
  cbn [SpecFloat.cond_Zopp Z.add SpecFloat.binary_normalize].
  apply binary_round_not_negative.
Qed.

Lemma div_not_negative x y :
  B64.not_negative x → (y <=? 0)%float = false → B64.not_negative (x / y).
Proof.
  unfold B64.not_negative. to_spec.
  destruct (FloatOps.Prim2SF x) as [[]|[]| |[] mx ex]; try done;
    destruct (FloatOps.Prim2SF y) as [[]|[]| |[] my ey]; try done.
  intros _ _. unfold FloatAxioms.SF64div, SpecFloat.SFdiv.
  destruct (SpecFloat.SFdiv_core_binary _ _ _ _ _ _) as [[mz ez] lz].
  apply binary_round_aux_not_negative.
Qed.

Lemma positive_not_negative x : (0 <? x)%float = true → B64.not_negative x.
Proof. unfold B64.not_negative. to_spec. by spec_cases x. Qed.

Lemma positive_not_leb_zero x : (0 <? x)%float = true → (x <=? 0)%float = false.
Proof. to_spec. by spec_cases x. Qed.

Lemma leb_zero_not_negative x : (0 <=? x)%float = true → B64.not_negative x.
Proof. unfold B64.not_negative. to_spec. by spec_cases x. Qed.

Lemma not_leb_zero_not_negative x : (x <=? 0)%float = false → B64.not_negative x.
Proof. unfold B64.not_negative. to_spec. by spec_cases x. Qed.

(** ** What [buy] and [sell] do in binary64, in one step *)

Lemma b64_bind_run {A B} (m : B64.M A) (f : A → B64.M B) l :
  (m ≫= f) l
  = match m l with B64.Returns a l' => f a l' | B64.Raises e => B64.Raises e end.
Proof. reflexivity. Qed.

Lemma b64_ret_run {A} (a : A) l : mret (M := B64.M) a l = B64.Returns a l.
Proof. reflexivity. Qed.

Lemma b64_ensure_run sym l :
  B64.ensure sym l = B64.Returns () (B64.store l sym (B64.position_of l sym)).
Proof.
  unfold B64.ensure, B64.contains, B64.setitem, B64.store, B64.position_of,
    mbind, B64.M_bind, mret, B64.M_ret.
  destruct l as [r ps]; cbn [B64.positions B64.realized_pnl].
  destruct (ps !! sym) as [v|] eqn:E.
  - rewrite bool_decide_eq_true_2 by eauto. cbn. by rewrite insert_id.
  - rewrite bool_decide_eq_false_2; [done |]. by intros [? ?].
Qed.

Lemma b64_getitem_store sym v l :
  B64.getitem sym (B64.store l sym v) = B64.Returns sym (B64.store l sym v).
Proof. unfold B64.getitem, B64.store; cbn. by rewrite lookup_insert_eq. Qed.

Lemma b64_read_qty_store sym v l :
  B64.read_qty sym (B64.store l sym v)
  = B64.Returns (B64.qty v) (B64.store l sym v).
Proof. unfold B64.read_qty, B64.store; cbn. by rewrite lookup_insert_eq. Qed.

Lemma b64_read_avg_entry_store sym v l :
  B64.read_avg_entry sym (B64.store l sym v)
  = B64.Returns (B64.avg_entry v) (B64.store l sym v).
Proof. unfold B64.read_avg_entry, B64.store; cbn. by rewrite lookup_insert_eq. Qed.

Lemma b64_write_qty_store sym v x l :
  B64.write_qty sym x (B64.store l sym v)
  = B64.Returns () (B64.store l sym (B64.mkPosition x (B64.avg_entry v))).
Proof. unfold B64.write_qty, B64.store; cbn. by rewrite alter_insert_eq. Qed.

Lemma b64_write_avg_entry_store sym v x l :
  B64.write_avg_entry sym x (B64.store l sym v)
  = B64.Returns () (B64.store l sym (B64.mkPosition (B64.qty v) x)).
Proof. unfold B64.write_avg_entry, B64.store; cbn. by rewrite alter_insert_eq. Qed.

Lemma b64_add_realized_pnl_store sym v x l :
  B64.add_realized_pnl x (B64.store l sym v)
  = B64.Returns ()
      (B64.store (B64.mkLedger (B64.realized_pnl l + x)%float (B64.positions l))
         sym v).
Proof. reflexivity. Qed.

Lemma b64_truediv_run x y l :
  (y =? 0)%float = false → B64.truediv x y l = B64.Returns (x / y)%float l.
Proof. intros H. unfold B64.truediv. by rewrite H. Qed.

Ltac b64_step :=
  first
    [ rewrite b64_bind_run
    | rewrite b64_ret_run
    | rewrite b64_ensure_run
    | rewrite b64_getitem_store
    | rewrite b64_read_qty_store
    | rewrite b64_read_avg_entry_store
    | rewrite b64_write_qty_store
    | rewrite b64_write_avg_entry_store
    | rewrite b64_add_realized_pnl_store
    | rewrite b64_truediv_run
        by (auto using ltb_zero_ne_zero, not_leb_zero_ne_zero) ];
  cbn [B64.qty B64.avg_entry].

Lemma b64_buy_run sym price usdt_notional l :
  let p := B64.position_of l sym in
  let f := if (0 <? price)%float then (usdt_notional / price)%float else 0%float in
  let new_qty := (B64.qty p + f)%float in
  B64.buy sym price usdt_notional l
  = B64.Returns f
      (B64.store l sym
         (if (new_qty <=? 0)%float then B64.mkPosition 0 0
          else B64.mkPosition new_qty
                 (if (0 <? B64.qty p)%float
                  then ((B64.avg_entry p * B64.qty p + price * f) / new_qty)%float
                  else price))).
Proof.
  intros p f new_qty. subst p f new_qty. unfold B64.buy.
  repeat b64_step.
  destruct (0 <? price)%float eqn:Hp; repeat b64_step;
    (destruct (_ <=? 0)%float eqn:Hn; repeat b64_step; [done |]);
    (destruct (0 <? B64.qty _)%float eqn:Hq; by repeat b64_step).
Qed.

Lemma b64_sell_run sym price usdt_notional l :
  let p := B64.position_of l sym in
  let desired :=
    if (0 <? price)%float then (usdt_notional / price)%float else 0%float in
  let f := B64.py_min (B64.qty p) desired in
  B64.sell sym price usdt_notional l
  = if (f <=? 0)%float then B64.Returns 0%float (B64.store l sym p)
    else B64.Returns f
           (B64.store
              (B64.mkLedger
                 (B64.realized_pnl l + (price - B64.avg_entry p) * f)%float
                 (B64.positions l))
              sym
              (if (B64.qty p - f <=? 0)%float then B64.mkPosition 0 0
               else B64.mkPosition (B64.qty p - f)%float (B64.avg_entry p))).
Proof.
  intros p desired f. subst p desired f. unfold B64.sell.
  repeat b64_step.
  destruct (0 <? price)%float eqn:Hp; repeat b64_step;
    (destruct (B64.py_min _ _ <=? 0)%float eqn:Hf; repeat b64_step; [done |]);
    (destruct (_ - _ <=? 0)%float eqn:Hr; by repeat b64_step).
Qed.



Lemma b64_all_positions_store P l sym v :
  P v → B64.all_positions P l → B64.all_positions P (B64.store l sym v).
Proof.
  intros Hv Hl. unfold B64.all_positions, B64.store; cbn.
  by apply map_Forall_insert_2.
Qed.

Lemma b64_all_positions_new P : B64.all_positions P B64.Ledger_new.
Proof. apply map_Forall_empty. Qed.

Lemma b64_all_positions_position_of P l sym :
  P B64.Position_new → B64.all_positions P l → P (B64.position_of l sym).
Proof.
  intros H0 Hl. unfold B64.position_of.
  destruct (B64.positions l !! sym) as [v|] eqn:E; [|done].
  apply (Hl _ _ E).
Qed.

(** ** Sequences of buys and sells in binary64 *)

Lemma b64_perform_buy sym price n l :
  B64.perform (B64.Buy sym price n) l
  = match B64.buy sym price n l with
    | B64.Returns _ l' => B64.Returns () l'
    | B64.Raises e => B64.Raises e
    end.
Proof. reflexivity. Qed.

Lemma b64_perform_sell sym price n l :
  B64.perform (B64.Sell sym price n) l
  = match B64.sell sym price n l with
    | B64.Returns _ l' => B64.Returns () l'
    | B64.Raises e => B64.Raises e
    end.
Proof. reflexivity. Qed.

(** No call raises, whatever the floats are. *)
Lemma b64_perform_total c l : ∃ l', B64.perform c l = B64.Returns () l'.
Proof.
  destruct c as [sym price n | sym price n].
  - rewrite b64_perform_buy, b64_buy_run. by eexists.
  - rewrite b64_perform_sell, b64_sell_run; cbv zeta.
    destruct (_ <=? 0)%float; by eexists.
Qed.

Lemma b64_run_cons c cs l l1 :
  B64.perform c l = B64.Returns () l1 →
  B64.run (c :: cs) l
  = match B64.run cs l1 with
    | B64.Returns ls l' => B64.Returns (l1 :: ls) l'
    | B64.Raises e => B64.Raises e
    end.
Proof. intros E. cbn [B64.run]. by rewrite b64_bind_run, E. Qed.

Lemma b64_run_total cs l :
  ∃ ls l', B64.run cs l = B64.Returns ls l' ∧ length ls = length cs.
Proof.
  revert l. induction cs as [|c cs IH]; intros l.
  - by exists [], l.
  - destruct (b64_perform_total c l) as (l1 & E1).
    destruct (IH l1) as (ls & l' & E & Hlen).
    exists (l1 :: ls), l'. rewrite (b64_run_cons _ _ _ _ E1), E.
    split; [done | cbn; by rewrite Hlen].
Qed.

(** An invariant kept by every permitted call from a ledger that passes
    the guard holds after every call of a run whose ledgers all pass it. *)
Lemma b64_run_guarded (Inv G : B64.Ledger → Prop) (ok : B64.trade → Prop) :
  (∀ c l l', ok c → Inv l → G l → B64.perform c l = B64.Returns () l' → Inv l') →
  ∀ cs l ls l',
    Forall ok cs → Inv l → G l →
    B64.run cs l = B64.Returns ls l' → Forall G ls → Forall Inv ls.
Proof.
  intros Hstep cs. induction cs as [|c cs IH]; intros l ls l' Hok Hl Hg E Hgs.
  - injection E as <- <-. constructor.
  - apply Forall_cons in Hok as [Hc Hcs].
    destruct (b64_perform_total c l) as (l1 & E1).
    rewrite (b64_run_cons _ _ _ _ E1) in E.
    destruct (B64.run cs l1) as [ls1 l1'|] eqn:E2; [|done].
    injection E as <- <-.
    apply Forall_cons in Hgs as [Hg1 Hgs].
    pose proof (Hstep c l l1 Hc Hl Hg E1) as Hl1.
    constructor; [done |]. by eapply IH.
Qed.

Lemma b64_perform_qty_stored c l l' :
  B64.all_positions B64.qty_stored l →
  B64.perform c l = B64.Returns () l' →
  B64.all_positions B64.qty_stored l'.
Proof.
  intros Hl.
  assert (H0 : B64.qty_stored B64.Position_new) by by left.
  pose proof (λ sym, b64_all_positions_position_of _ l sym H0 Hl) as Hp.
  destruct c as [sym price n | sym price n].
  - rewrite b64_perform_buy, b64_buy_run; cbv zeta. intros [= <-].
    apply b64_all_positions_store; [|done].
    destruct (_ <=? 0)%float eqn:Hn; [by left | by right].
  - rewrite b64_perform_sell, b64_sell_run; cbv zeta.
    destruct (B64.py_min _ _ <=? 0)%float eqn:Hf; intros [= <-];
      (apply b64_all_positions_store; [|done]); [apply Hp |].
    destruct (_ - _ <=? 0)%float eqn:Hr; [by left | by right].
Qed.

Lemma qty_stored_facts q :
  q = 0%float ∨ (q <=? 0)%float = false →
  (q <? 0)%float = false ∧ (is_nan q = false → (0 <=? q)%float = true).
Proof.
  intros [-> | H]; [done |]. split.
  - destruct (q <? 0)%float eqn:Hlt; [|done].
    apply ltb_zero_leb_zero in Hlt. congruence.
  - by apply not_leb_zero_leb.
Qed.

Lemma not_negative_leb x :
  B64.not_negative x → is_nan x = false → (0 <=? x)%float = true.
Proof.
  unfold B64.not_negative. intros H Hnan. apply is_nan_spec in Hnan.
  revert H Hnan. to_spec. by spec_cases x.
Qed.

(** The average entry price a buy leaves, for a notional of at least 0 and
    a holding that is not a NaN. *)
Lemma b64_buy_avg_entry_not_negative (p : B64.Position) (price n : float) :
  (0 <=? n)%float = true →
  B64.not_negative (B64.avg_entry p) → is_nan (B64.qty p) = false →
  let f := if (0 <? price)%float then (n / price)%float else 0%float in
  let new_qty := (B64.qty p + f)%float in
  B64.not_negative
    (B64.avg_entry
       (if (new_qty <=? 0)%float then B64.mkPosition 0 0
        else B64.mkPosition new_qty
               (if (0 <? B64.qty p)%float
                then ((B64.avg_entry p * B64.qty p + price * f) / new_qty)%float
                else price))).
Proof.
  intros Hn Ha Hq f new_qty.
  destruct (new_qty <=? 0)%float eqn:Hnew; cbn [B64.avg_entry]; [done |].
  destruct (0 <? B64.qty p)%float eqn:Hpos.
  - apply div_not_negative; [|done].
    apply add_not_negative.
    + apply mul_not_negative; [done | by apply positive_not_negative].
    + subst f. destruct (0 <? price)%float eqn:Hprice.
      * apply mul_not_negative; [by apply positive_not_negative |].
        apply div_not_negative;
          [by apply leb_zero_not_negative | by apply positive_not_leb_zero].
      * apply mul_zero_not_negative.
  - subst new_qty f. destruct (0 <? price)%float eqn:Hprice.
    + by apply positive_not_negative.
    + rewrite not_positive_add_zero in Hnew; done.
Qed.

Lemma b64_perform_avg_entry_not_negative c l l' :
  B64.buys_nonneg c →
  B64.all_positions (λ p, B64.not_negative (B64.avg_entry p)) l →
  B64.all_positions (λ p, is_nan (B64.qty p) = false) l →
  B64.perform c l = B64.Returns () l' →
  B64.all_positions (λ p, B64.not_negative (B64.avg_entry p)) l'.
Proof.
  intros Hc Hl Hg.
  pose proof (λ sym, b64_all_positions_position_of
                       (λ p, B64.not_negative (B64.avg_entry p)) l sym
                       eq_refl Hl) as Hp.
  pose proof (λ sym, b64_all_positions_position_of
                       (λ p, is_nan (B64.qty p) = false) l sym
                       eq_refl Hg) as Hq.
  destruct c as [sym price n | sym price n]; cbn [B64.buys_nonneg] in Hc.
  - rewrite b64_perform_buy, b64_buy_run; cbv zeta. intros [= <-].
    apply b64_all_positions_store; [|done].
    by apply b64_buy_avg_entry_not_negative.
  - rewrite b64_perform_sell, b64_sell_run; cbv zeta.
    destruct (B64.py_min _ _ <=? 0)%float eqn:Hf; intros [= <-];
      (apply b64_all_positions_store; [|done]); [apply Hp |].
    destruct (_ - _ <=? 0)%float eqn:Hr; [done | apply Hp].
Qed.

(** ** The claims that turn on floating point *)

(** C2, as stated, fails: a buy whose fill overflows stores an infinite
    quantity, and selling it stores [inf - inf], a NaN, which is not at
    least 0.  The price is 2^-1000 and the notional 2^1000. *)
Lemma quantity_nan_after_overflow :
  let sym := "BTCUSDT" in
  let l1 := B64.mkLedger 0 {[ sym := B64.mkPosition infinity 0x1p-1000 ]} in
  let l2 := B64.mkLedger nan {[ sym := B64.mkPosition nan 0x1p-1000 ]} in
  B64.run [B64.Buy sym 0x1p-1000 0x1p1000; B64.Sell sym 0x1p-1000 0x1p1000]
    B64.Ledger_new
  = B64.Returns [l1; l2] l2
  ∧ B64.positions l2 !! sym = Some (B64.mkPosition nan 0x1p-1000)
  ∧ (0 <=? B64.qty (B64.mkPosition nan 0x1p-1000))%float = false.
Proof. vm_compute. by repeat split. Qed.

(** C2, amended. Along any sequence of buy and sell calls from a new
    ledger, with any binary64 prices and notionals, every call returns and
    after each call no stored quantity is below 0: it is the 0.0 of a
    reset or a value that failed the test [<= 0], and it is at least 0
    unless it is a NaN. *)
Theorem quantity_never_below_zero (cs : list B64.trade) :
  ∃ ls l',
    B64.run cs B64.Ledger_new = B64.Returns ls l'
    ∧ length ls = length cs
    ∧ Forall (λ l, ∀ sym p, B64.positions l !! sym = Some p →
                (B64.qty p <? 0)%float = false
                ∧ (B64.qty p = 0%float ∨ (B64.qty p <=? 0)%float = false)
                ∧ (is_nan (B64.qty p) = false → (0 <=? B64.qty p)%float = true))
        ls.
Proof.
  destruct (b64_run_total cs B64.Ledger_new) as (ls & l' & E & Hlen).
  exists ls, l'. split; [done |]. split; [done |].
  assert (Hinv : Forall (B64.all_positions B64.qty_stored) ls).
  { eapply (b64_run_guarded (B64.all_positions B64.qty_stored) (λ _, True) (λ _, True));
      [| by apply Forall_true | apply b64_all_positions_new | done | exact E
       | by apply Forall_true].
    intros c l l1 _ Hl _. by apply b64_perform_qty_stored. }
  eapply Forall_impl; [exact Hinv |].
  intros l Hl sym p Hp. pose proof (Hl _ _ Hp) as Hq.
  destruct (qty_stored_facts _ Hq) as [H1 H2]. by repeat split.
Qed.

(** C4, as stated, fails, in three ways: a buy with a negative notional
    (1 at price 1, then -2 at price 4) leaves an average entry of -2; with
    notionals of at least 0, a fill that overflows (2^1000 at price
    2^-1000) followed by a buy of 1 at price 1 leaves [inf / inf], a NaN;
    and once selling that holding has made the quantity a NaN, a buy at
    price -5 stores -5. *)
Lemma avg_entry_below_zero_or_nan :
  let sym := "BTCUSDT" in
  let st r q a := B64.mkLedger r {[ sym := B64.mkPosition q a ]} in
  B64.run [B64.Buy sym 1 1; B64.Buy sym 4 (-2)] B64.Ledger_new
  = B64.Returns [st 0 1 1; st 0 0.5 (-2)]%float (st 0 0.5 (-2))%float
  ∧ (-2 <? 0)%float = true
  ∧ B64.run [B64.Buy sym 0x1p-1000 0x1p1000; B64.Buy sym 1 1] B64.Ledger_new
    = B64.Returns [st 0 infinity 0x1p-1000; st 0 infinity nan]%float
        (st 0 infinity nan)%float
  ∧ (0 <=? nan)%float = false
  ∧ B64.run [B64.Buy sym 0x1p-1000 0x1p1000; B64.Sell sym 0x1p-1000 0x1p1000;
             B64.Buy sym (-5) 1] B64.Ledger_new
    = B64.Returns [st 0 infinity 0x1p-1000; st nan nan 0x1p-1000; st nan nan (-5)]%float
        (st nan nan (-5))%float
  ∧ (-5 <? 0)%float = true.
Proof. vm_compute. by repeat split. Qed.

(** C4, amended. Along any sequence of buy and sell calls from a new
    ledger in which every buy has a notional of at least 0 (prices, and
    the notionals of sells, are arbitrary), every call returns; and as
    long as no stored quantity is a NaN, no stored average entry price is
    below 0: it is at least 0 unless it is itself a NaN. *)
Theorem avg_entry_never_below_zero (cs : list B64.trade) :
  Forall B64.buys_nonneg cs →
  ∃ ls l',
    B64.run cs B64.Ledger_new = B64.Returns ls l'
    ∧ length ls = length cs
    ∧ (Forall (λ l, ∀ sym p, B64.positions l !! sym = Some p →
                 is_nan (B64.qty p) = false) ls →
       Forall (λ l, ∀ sym p, B64.positions l !! sym = Some p →
                 (B64.avg_entry p <? 0)%float = false
                 ∧ (is_nan (B64.avg_entry p) = false →
                    (0 <=? B64.avg_entry p)%float = true)) ls).
Proof.
  intros Hcs.
  destruct (b64_run_total cs B64.Ledger_new) as (ls & l' & E & Hlen).
  exists ls, l'. split; [done |]. split; [done |]. intros Hg.
  assert (Hinv : Forall (B64.all_positions
                           (λ p, B64.not_negative (B64.avg_entry p))) ls).
  { eapply (b64_run_guarded _ (B64.all_positions (λ p, is_nan (B64.qty p) = false))
              B64.buys_nonneg);
      [| exact Hcs | apply b64_all_positions_new | apply b64_all_positions_new
       | exact E | exact Hg].
    intros c l l1 Hc Hl Hgl. by apply b64_perform_avg_entry_not_negative. }
  eapply Forall_impl; [exact Hinv |].
  intros l Hl sym p Hp. pose proof (Hl _ _ Hp) as Ha.
  split; [done |]. by apply not_negative_leb.
Qed.

Lemma avg_entry_never_below_zero_witness :
  ∃ ls l',
    B64.run [B64.Buy "BTCUSDT" 1 1; B64.Buy "BTCUSDT" (-4) 2;
             B64.Sell "BTCUSDT" 4 (-2)] B64.Ledger_new
    = B64.Returns ls l'
    ∧ length ls = 3%nat
    ∧ (Forall (λ l, ∀ sym p, B64.positions l !! sym = Some p →
                 is_nan (B64.qty p) = false) ls →
       Forall (λ l, ∀ sym p, B64.positions l !! sym = Some p →
                 (B64.avg_entry p <? 0)%float = false
                 ∧ (is_nan (B64.avg_entry p) = false →
                    (0 <=? B64.avg_entry p)%float = true)) ls).
Proof.
  apply (avg_entry_never_below_zero
           [B64.Buy "BTCUSDT" 1 1; B64.Buy "BTCUSDT" (-4) 2;
            B64.Sell "BTCUSDT" 4 (-2)]).
  repeat constructor.
Defined.

(** C5. [buy] has no early return for a price that is not above 0: it
    goes on to recompute the average entry price with a fill of 0.0, as
    [(avg * qty + price * 0.0) / (qty + 0.0)], and the rounding of
    [avg * qty] can change it.  After buying for 1.0 at 0.11
    (0x1.c28f5c28f5c29p-4), a buy at price 0.0 returns 0.0 and lowers the
    average entry to 0.10999999999999999 (0x1.c28f5c28f5c28p-4). *)
Theorem buy_at_price_zero_rewrites_avg_entry :
  let sym := "BTCUSDT" in
  let l1 := B64.mkLedger 0
              {[ sym := B64.mkPosition 0x1.22e8ba2e8ba2fp+3 0x1.c28f5c28f5c29p-4 ]} in
  let l2 := B64.mkLedger 0
              {[ sym := B64.mkPosition 0x1.22e8ba2e8ba2fp+3 0x1.c28f5c28f5c28p-4 ]} in
  B64.buy sym 0x1.c28f5c28f5c29p-4 1 B64.Ledger_new
  = B64.Returns 0x1.22e8ba2e8ba2fp+3%float l1
  ∧ B64.buy sym 0 1000 l1 = B64.Returns 0%float l2
  ∧ (B64.avg_entry (B64.position_of l2 sym)
     =? B64.avg_entry (B64.position_of l1 sym))%float = false
  ∧ (B64.avg_entry (B64.position_of l2 sym)
     <? B64.avg_entry (B64.position_of l1 sym))%float = true.
Proof. vm_compute. by repeat split. Qed.



